(** * SMIRT user manager: registry, sessions and role checks

    A shallow embedding of [src/js/user-manager.js] (class [UserManager])
    and the properties its specification states about it.

    Modelling conventions.
    - A JavaScript object that the manager treats as a bag of properties
      (a user record, the argument of [addUser], the patch of [updateUser])
      is a finite map from property names to values; reading a property
      that is not there gives [undefined], as in JavaScript.
    - [this.users] is a JavaScript [Map]: keyed, and iterated in insertion
      order.  It is an association list whose [set] overwrites in place or
      appends.  Keys are compared by value, which is what [Map] does on
      strings, booleans, integers, [null] and [undefined]; a key that is
      an array, which [Map] would compare by identity, is not told apart
      from an equal array.
    - [localStorage] holds the two entries the manager uses.  An entry is
      absent, the empty string, text that [JSON.parse] rejects, or the JSON
      text of a document; the document stands for its text.  The users
      entry, when it parses, is an array of objects; the session entry,
      when it parses, is a session object with integer timestamps.  Writes
      to the store are taken to succeed.
    - The clock is an input: every function that reads [Date.now()] or
      [new Date().toISOString()] takes the readings as arguments.
    - Callers pass strings for usernames, passwords and roles; the
      argument of [addUser] and the patch of [updateUser] are objects. *)

From stdpp Require Import base option list strings gmap.

Open Scope string_scope.
Open Scope Z_scope.
Open Scope list_scope.

(** ** JavaScript values held in the fields of a record *)

Inductive value : Type :=
  | VUndef
  | VNull
  | VBool (b : bool)
  | VNum (n : Z)
  | VStr (s : string)
  | VList (l : list string).

Global Instance value_eq_dec : EqDecision value.
Proof. solve_decision. Defined.

(** ToBoolean: what [!x], [x || y] and [if (x)] look at. *)
Definition truthy (v : value) : bool :=
  match v with
  | VUndef | VNull => false
  | VBool b => b
  | VNum n => negb (Z.eqb n 0)
  | VStr s => negb (String.eqb s "")
  | VList _ => true
  end.

(** [a || b] *)
Definition js_or (a b : value) : value := if truthy a then a else b.

(** ** Objects as property maps *)

Abbreviation record := (gmap string value).

(** [o.f] *)
Definition get (f : string) (o : record) : value := default VUndef (o !! f).

(** [JSON.parse(JSON.stringify(o))] on an object: properties whose value
    is [undefined] are left out of the text, every other value of the
    model is written and read back as it is. *)
Definition json (o : record) : record := filter (λ kv, kv.2 ≠ VUndef) o.

(** ** [Map]: an insertion-ordered dictionary *)

Module JsMap.
Section JsMap.
Context {K V : Type} `{EqDecision K}.

Fixpoint get (k : K) (m : list (K * V)) : option V :=
  match m with
  | [] => None
  | (k', v) :: m' => if decide (k = k') then Some v else get k m'
  end.

Definition has (k : K) (m : list (K * V)) : bool :=
  match get k m with Some _ => true | None => false end.

Fixpoint set (k : K) (v : V) (m : list (K * V)) : list (K * V) :=
  match m with
  | [] => [(k, v)]
  | (k', v') :: m' =>
      if decide (k = k') then (k, v) :: m' else (k', v') :: set k v m'
  end.

Definition keys (m : list (K * V)) : list K := m.*1.
Definition values (m : list (K * V)) : list V := m.*2.
Definition size (m : list (K * V)) : nat := length m.
End JsMap.
End JsMap.

(** ** Sessions, storage and the manager's state *)

(** The object [authenticate] builds and [isSessionValid] reads back.
    JSON text leaves out a field whose value is [undefined], and the field
    then reads as [undefined] again: the object and its text read alike. *)
Record session : Type := Session {
  username : value;
  displayName : value;
  role : value;
  loginTime : Z;
  expiresAt : Z
}.

(** What a [localStorage] entry holds when it is there. *)
Inductive item (A : Type) : Type :=
  | Blank               (* the empty string *)
  | Corrupt             (* text that JSON.parse rejects *)
  | Doc (a : A).        (* JSON.stringify of a *)
Arguments Blank {A}.
Arguments Corrupt {A}.
Arguments Doc {A} a.

Record state : Type := State {
  users : list (value * record);          (* this.users *)
  currentUser : option session;           (* this.currentUser *)
  stored_users : option (item (list record));  (* localStorage['smirt_users'] *)
  stored_session : option (item session)       (* localStorage['smirt_session'] *)
}.

(** [new UserManager()] over a given store. *)
Definition constructor (su : option (item (list record)))
    (ss : option (item session)) : state :=
  State [] None su ss.

Definition sessionDuration : Z := 24 * 60 * 60 * 1000.

(** Results [{ success: true, ... }] and [{ success: false, message }]. *)
Inductive result (A : Type) : Type :=
  | Success (a : A)
  | Failure (message : string).
Arguments Success {A} a.
Arguments Failure {A} message.

(** The messages of the failure results, under the names the
    specification gives to the failures. *)
Definition UserNotFound : string := "Utente non trovato".
Definition UserInactive : string := "Utente disattivato".
Definition InvalidCredential : string := "Password errata".
Definition InvalidCurrentPassword : string := "Password attuale errata".
Definition DuplicateUser : string := "Utente già esistente".
Definition PermissionDenied : string := "Accesso negato".

Definition with_users (st : state) (m : list (value * record)) : state :=
  State m (currentUser st) (stored_users st) (stored_session st).

(** ** The registry: loading, seeding, saving *)

(** [saveUsers]: [localStorage.setItem(this.usersKey,
    JSON.stringify(Array.from(this.users.values())))]. *)
Definition saveUsers (st : state) : state :=
  State (users st) (currentUser st)
        (Some (Doc (json <$> JsMap.values (users st))))
        (stored_session st).

(** [array.forEach(user => this.users.set(user.username, user))] *)
Definition setEach (array : list record) (m : list (value * record))
    : list (value * record) :=
  foldl (λ m user, JsMap.set (get "username" user) user m) m array.

Definition defaultUsers (iso : string) : list record :=
  [ {[ "username" := VStr "admin";
       "password" := VStr "2977";
       "displayName" := VStr "Amministratore";
       "role" := VStr "admin";
       "active" := VBool true;
       "createdAt" := VStr iso ]} ].

(** [initializeDefaultUsers], [iso] being [new Date().toISOString()]. *)
Definition initializeDefaultUsers (st : state) (iso : string) : state :=
  saveUsers (with_users st (setEach (defaultUsers iso) [])).

(** What [fetch('./users.json')] and [response.json()] come to. *)
Inductive fetch_outcome : Type :=
  | FetchRejected    (* fetch rejects: the resource cannot be reached *)
  | FetchNotOk       (* a response whose ok flag is false *)
  | FetchBadJson     (* response.json() rejects *)
  | FetchNoUsers     (* the data is null, or data.users is undefined or
                        null: reading the entries raises, after
                        this.users.clear() has run *)
  | FetchUsers (entries : list (string * record)).
                     (* Object.entries(data.users), in property order,
                        every value an object *)

(** The record the bootstrap branch builds for one entry. *)
Definition bootstrapUser (name : string) (userData : record) (iso : string)
    : record :=
  {[ "username" := VStr name;
     "password" := get "password" userData;
     "displayName" := get "displayName" userData;
     "role" := get "role" userData;
     "permissions" := js_or (get "permissions" userData) (VList []);
     "active" := VBool true;
     "createdAt" := VStr iso ]}.

(** The second [try] block of [loadUsers]: the persisted snapshot, or
    the default users.  [clock n] is the n-th reading of the clock. *)
Definition loadStored (st : state) (clock : nat → string) : state :=
  match stored_users st with
  | Some (Doc usersArray) =>
      let st1 := with_users st (setEach usersArray []) in
      if Nat.eqb (JsMap.size (users st1)) 0
      then initializeDefaultUsers st1 (clock 0%nat) else st1
  | Some Corrupt =>
      (* JSON.parse raises; the catch block *)
      initializeDefaultUsers st (clock 0%nat)
  | Some Blank | None =>
      (* the stored text is falsy: the else branch *)
      let st1 := initializeDefaultUsers st (clock 0%nat) in
      if Nat.eqb (JsMap.size (users st1)) 0
      then initializeDefaultUsers st1 (clock 1%nat) else st1
  end.

(** [loadUsers]; in the bootstrap branch the i-th entry is stamped with
    the i-th reading of the clock. *)
Definition loadUsers (st : state) (response : fetch_outcome)
    (clock : nat → string) : state :=
  match response with
  | FetchUsers entries =>
      saveUsers (with_users st
        (foldl (λ m e, JsMap.set (VStr e.1) e.2 m) []
           (imap (λ i e, (e.1, bootstrapUser e.1 e.2 (clock i))) entries)))
  | FetchNoUsers => loadStored (with_users st []) clock
  | FetchRejected | FetchNotOk | FetchBadJson => loadStored st clock
  end.

(** ** Sessions *)

(** [logout] *)
Definition logout (st : state) : state :=
  State (users st) None (stored_users st) None.

(** [authenticate]; [now1] and [now2] are the two readings of
    [Date.now()].  A value of the registry is an object, so [!user] holds
    only when the key is absent. *)
Definition authenticate (st : state) (name password : string)
    (now1 now2 : Z) : result session * state :=
  match JsMap.get (VStr name) (users st) with
  | None => (Failure UserNotFound, st)
  | Some user =>
      if negb (truthy (get "active" user)) then (Failure UserInactive, st)
      else if bool_decide (get "password" user ≠ VStr password)
      then (Failure InvalidCredential, st)
      else
        let sessionData :=
          {| username := get "username" user;
             displayName := get "displayName" user;
             role := get "role" user;
             loginTime := now1;
             expiresAt := now2 + sessionDuration |} in
        (Success sessionData,
         State (users st) (Some sessionData) (stored_users st)
               (Some (Doc sessionData)))
  end.

(** [isSessionValid] at clock reading [now]. *)
Definition isSessionValid (st : state) (now : Z) : bool * state :=
  match stored_session st with
  | None | Some Blank => (false, st)      (* !sessionData *)
  | Some Corrupt => (false, st)           (* JSON.parse raises; catch *)
  | Some (Doc s) =>
      if now >? expiresAt s then (false, logout st)
      else
        let s' := {| username := username s;
                     displayName := displayName s;
                     role := role s;
                     loginTime := loginTime s;
                     expiresAt := now + sessionDuration |} in
        (true, State (users st) (Some s') (stored_users st) (Some (Doc s')))
  end.

(** [getCurrentUser] *)
Definition getCurrentUser (st : state) (now : Z) : option session * state :=
  let '(valid, st') := isSessionValid st now in
  if valid then (currentUser st', st') else (None, st').

(** [hasRole]: [currentUser && currentUser.role === role], which is
    [null] when there is no current user. *)
Definition hasRole (st : state) (r : string) (now : Z) : value * state :=
  let '(cu, st') := getCurrentUser st now in
  match cu with
  | None => (VNull, st')
  | Some s => (VBool (bool_decide (role s = VStr r)), st')
  end.

(** [isAdmin] *)
Definition isAdmin (st : state) (now : Z) : value * state :=
  hasRole st "admin" now.

(** [cleanupSessions] *)
Definition cleanupSessions (st : state) (now : Z) : state :=
  let '(valid, st') := isSessionValid st now in
  if valid then st' else logout st'.

(** ** Registry operations *)

(** [addUser]: [{ ...userData, active: true, createdAt: iso }] is stored
    under [userData.username]. *)
Definition addUser (st : state) (userData : record) (iso : string)
    : result record * state :=
  if JsMap.has (get "username" userData) (users st)
  then (Failure DuplicateUser, st)
  else
    let newUser :=
      <["createdAt" := VStr iso]> (<["active" := VBool true]> userData) in
    (Success newUser,
     saveUsers (with_users st
       (JsMap.set (get "username" userData) newUser (users st)))).

(** [updateUser]: [{ ...user, ...updates, updatedAt: iso }]; the union
    of property maps prefers its left operand, as the spread prefers the
    later object. *)
Definition updateUser (st : state) (name : string) (updates : record)
    (iso : string) : result record * state :=
  match JsMap.get (VStr name) (users st) with
  | None => (Failure UserNotFound, st)
  | Some user =>
      let updatedUser := <["updatedAt" := VStr iso]> (updates ∪ user) in
      (Success updatedUser,
       saveUsers (with_users st
         (JsMap.set (VStr name) updatedUser (users st))))
  end.

(** [deactivateUser] *)
Definition deactivateUser (st : state) (name : string) (iso : string)
    : result record * state :=
  updateUser st name {[ "active" := VBool false ]} iso.

(** [activateUser] *)
Definition activateUser (st : state) (name : string) (iso : string)
    : result record * state :=
  updateUser st name {[ "active" := VBool true ]} iso.

(** [changePassword] *)
Definition changePassword (st : state) (name oldPassword newPassword : string)
    (iso : string) : result record * state :=
  match JsMap.get (VStr name) (users st) with
  | None => (Failure UserNotFound, st)
  | Some user =>
      if bool_decide (get "password" user ≠ VStr oldPassword)
      then (Failure InvalidCurrentPassword, st)
      else updateUser st name {[ "password" := VStr newPassword ]} iso
  end.

(** The object [getAllUsers] builds for one user. *)
Definition listed (user : record) : record :=
  {[ "username" := get "username" user;
     "displayName" := get "displayName" user;
     "role" := get "role" user;
     "active" := get "active" user;
     "createdAt" := get "createdAt" user;
     "updatedAt" := get "updatedAt" user ]}.

(** [getAllUsers] *)
Definition getAllUsers (st : state) (now : Z)
    : result (list record) * state :=
  let '(cu, st') := getCurrentUser st now in
  match cu with
  | None => (Failure PermissionDenied, st')
  | Some s =>
      if bool_decide (role s ≠ VStr "admin")
      then (Failure PermissionDenied, st')
      else (Success (listed <$> JsMap.values (users st')), st')
  end.

(** ** Sequences of registry operations *)

Inductive operation : Type :=
  | AddUser (userData : record) (iso : string)
  | UpdateUser (name : string) (updates : record) (iso : string)
  | ActivateUser (name : string) (iso : string)
  | DeactivateUser (name : string) (iso : string)
  | ChangePassword (name oldPassword newPassword : string) (iso : string).

Definition step (st : state) (op : operation) : state :=
  match op with
  | AddUser userData iso => (addUser st userData iso).2
  | UpdateUser name updates iso => (updateUser st name updates iso).2
  | ActivateUser name iso => (activateUser st name iso).2
  | DeactivateUser name iso => (deactivateUser st name iso).2
  | ChangePassword name old new iso => (changePassword st name old new iso).2
  end.

Definition run (st : state) (ops : list operation) : state :=
  foldl step st ops.

(** ** Vocabulary of the properties *)

(** The session that the store holds, if it holds one: an entry that is
    missing, empty or unparseable is no session. *)
Definition persisted (st : state) : option session :=
  match stored_session st with
  | Some (Doc s) => Some s
  | _ => None
  end.

(** A session with its expiry moved. *)
Definition extended (s : session) (expiry : Z) : session :=
  {| username := username s;
     displayName := displayName s;
     role := role s;
     loginTime := loginTime s;
     expiresAt := expiry |}.

(** Every record sits under its own username. *)
Definition keyed_by_username (m : list (value * record)) : Prop :=
  Forall (λ kr, get "username" kr.2 = kr.1) m.

(** The patch of an update says nothing about the username. *)
Definition keeps_username (op : operation) : Prop :=
  match op with
  | UpdateUser _ updates _ => updates !! "username" = None
  | _ => True
  end.

(** The bootstrap source gave no users mapping. *)
Definition bootstrap_failed (response : fetch_outcome) : Prop :=
  match response with
  | FetchUsers _ => False
  | _ => True
  end.

(** The store has no user snapshot to offer: no entry, the empty string,
    text that does not parse, or an empty array. *)
Definition nothing_stored (su : option (item (list record))) : Prop :=
  match su with
  | None | Some Blank | Some Corrupt | Some (Doc []) => True
  | Some (Doc (_ :: _)) => False
  end.

(** The properties [getAllUsers] copies. *)
Definition listed_fields : list string :=
  ["username"; "displayName"; "role"; "active"; "createdAt"; "updatedAt"].

(** The registry as it reads back from its own snapshot. *)
Definition reread (m : list (value * record)) : list (value * record) :=
  (λ kr, (kr.1, json kr.2)) <$> m.

(** Two objects that read the same at every property. *)
Definition same_fields (a b : record) : Prop := ∀ f, get f a = get f b.

(** ** Utilities on text ([src/js/utils.js])

    The utilities look inside their strings, so a string is here the
    sequence of its UTF-16 code units, as JavaScript has it.  A field that
    is [undefined] or [null] is [None]. *)

(** The code units of a literal written in ASCII. *)
Definition units (s : string) : list Z :=
  (λ a, Z.of_N (Ascii.N_of_ascii a)) <$> String.list_ascii_of_string s.

(** WhiteSpace and LineTerminator of ECMAScript, which [trim] strips:
    TAB, LF, VT, FF, CR, SP, NBSP, U+1680, U+2000 to U+200A, U+2028,
    U+2029, U+202F, U+205F, U+3000 and U+FEFF. *)
Definition isWhiteSpace (c : Z) : bool :=
  bool_decide (c ∈ [9; 10; 11; 12; 13; 32; 160; 5760; 8232; 8233; 8239;
                    8287; 12288; 65279])
  || ((8192 <=? c) && (c <=? 8202)).

Fixpoint trimStart (s : list Z) : list Z :=
  match s with
  | c :: s' => if isWhiteSpace c then trimStart s' else s
  | [] => []
  end.

Definition trimEnd (s : list Z) : list Z := reverse (trimStart (reverse s)).

(** [s.trim()] *)
Definition trim (s : list Z) : list Z := trimEnd (trimStart s).

(** [s.startsWith(p)] *)
Fixpoint startsWith (s p : list Z) {struct p} : bool :=
  match p, s with
  | [], _ => true
  | _ :: _, [] => false
  | a :: p', b :: s' => (a =? b) && startsWith s' p'
  end.

(** [s.includes(p)] *)
Fixpoint includes (s p : list Z) : bool :=
  startsWith s p
  || match s with
     | [] => false
     | _ :: s' => includes s' p
     end.

Definition isEmpty (s : list Z) : bool :=
  match s with [] => true | _ :: _ => false end.

(** [!x || !x.trim()] *)
Definition blank (x : option (list Z)) : bool :=
  match x with
  | None => true
  | Some s => isEmpty s || isEmpty (trim s)
  end.

(** A call that returns or throws an [Error] with a message. *)
Inductive outcome (A : Type) : Type :=
  | Returns (a : A)
  | Throws (message : string).
Arguments Returns {A} a.
Arguments Throws {A} message.

(** [[0-9]] *)
Definition isDigit (c : Z) : bool := (48 <=? c) && (c <=? 57).

(** [/^[0-9]{4}$/.test(code)]: without the multiline flag the anchors are
    the two ends of the string. *)
Definition fourDigits (code : list Z) : bool :=
  Nat.eqb (length code) 4 && forallb isDigit code.

(** [generateMudFromCode] *)
Definition generateMudFromCode (code : list Z) : outcome (list Z) :=
  if negb (fourDigits code)
  then Throws "Il codice deve essere di esattamente 4 cifre numeriche"
  else Returns (code ++ units "-01").

(** [getInterventoType] *)
Definition getInterventoType (mudValue : option (list Z)) : string :=
  match mudValue with
  | None => "ordinario"
  | Some m =>
      if isEmpty m || isEmpty (trim m) then "ordinario"
      else
        let value := trim m in
        if startsWith value (units "ORD-") then "ordinario"
        else if startsWith value (units "MUD-") || includes value (units "MUD")
        then "mud"
        else "mud"
  end.

(** The fields of the form that [validateFormData] reads. *)
Record formData : Type := FormData {
  mud : option (list Z);
  luogo : option (list Z);
  dataInizio : option (list Z);
  dataFine : option (list Z);
  descrizione : option (list Z)
}.

Definition mudRequired : string := "Il campo MUD è obbligatorio".
Definition luogoRequired : string := "Il campo Luogo è obbligatorio".
Definition dataInizioRequired : string :=
  "Il campo Data Inizio è obbligatorio".
Definition dataFineRequired : string := "Il campo Data Fine è obbligatorio".
Definition descrizioneRequired : string :=
  "Il campo Descrizione è obbligatorio".
Definition dateOrder : string :=
  "La data fine non può essere precedente alla data inizio".

(** [!x] on a field *)
Definition absent (x : option (list Z)) : bool :=
  match x with
  | None => true
  | Some s => isEmpty s
  end.

Section FormValidation.

(** [new Date(text)]: the time value, or [None] for an invalid date. *)
Variable parseDate : list Z → option Z.

(** [new Date(b) < new Date(a)]: a comparison of time values, false as
    soon as one of them is NaN. *)
Definition earlier (b a : list Z) : bool :=
  match parseDate b, parseDate a with
  | Some tb, Some ta => tb <? ta
  | _, _ => false
  end.

(** [validateFormData]: the messages, in the order they are pushed. *)
Definition validateFormData (fd : formData) : list string :=
  (if blank (mud fd) then [mudRequired] else [])
  ++ (if blank (luogo fd) then [luogoRequired] else [])
  ++ (if absent (dataInizio fd) then [dataInizioRequired] else [])
  ++ (if absent (dataFine fd) then [dataFineRequired] else [])
  ++ (if blank (descrizione fd) then [descrizioneRequired] else [])
  ++ match dataInizio fd, dataFine fd with
     | Some inizio, Some fine =>
         if negb (isEmpty inizio) && negb (isEmpty fine)
         then if earlier fine inizio then [dateOrder] else []
         else []
     | _, _ => []
     end.

End FormValidation.

(** ** More vocabulary: sessions over time, the store and the registry *)

(** [isSessionValid] called at each of the times, in turn. *)
Fixpoint validateAt (st : state) (times : list Z) : list bool * state :=
  match times with
  | [] => ([], st)
  | t :: ts =>
      let '(valid, st1) := isSessionValid st t in
      let '(rest, st2) := validateAt st1 ts in
      (valid :: rest, st2)
  end.

(** Each time falls within the window left open by the one before it. *)
Fixpoint within_window (expiry : Z) (times : list Z) : Prop :=
  match times with
  | [] => True
  | t :: ts => t ≤ expiry ∧ within_window (t + sessionDuration) ts
  end.

(** The stored snapshot is the one [saveUsers] would write now. *)
Definition synced (st : state) : Prop :=
  stored_users st = Some (Doc (json <$> JsMap.values (users st))).

(** The registry and its snapshot are those of another state. *)
Definition same_registry (st st' : state) : Prop :=
  users st' = users st ∧ stored_users st' = stored_users st.

(** The session, cached and stored, is that of another state. *)
Definition same_session (st st' : state) : Prop :=
  currentUser st' = currentUser st ∧ stored_session st' = stored_session st.

(** ** Concrete states used to exercise the statements *)

Definition noon : nat → string := λ _, "2024-01-01T12:00:00.000Z".

(** First start: nothing to fetch, nothing stored. *)
Definition seeded : state :=
  loadUsers (constructor None None) FetchRejected noon.

(** The seeded administrator signs in at time 1000. *)
Definition signed_in : state :=
  (authenticate seeded "admin" "2977" 1000 1000).2.

(** A user is added, then updated with a patch that names a username. *)
Definition renamed : state :=
  run (constructor None None)
      [ AddUser {[ "username" := VStr "bob"; "password" := VStr "pw" ]}
                (noon 0%nat);
        UpdateUser "bob" {[ "username" := VStr "eve" ]} (noon 1%nat) ].

(** The bootstrap source names one administrator with a permission. *)
Definition bootstrapped : state :=
  loadUsers (constructor None None)
    (FetchUsers
       [ ("root", {[ "password" := VStr "pw";
                     "displayName" := VStr "Root";
                     "role" := VStr "admin";
                     "permissions" := VList ["manage"] ]}) ])
    noon.

Definition root_signed_in : state :=
  (authenticate bootstrapped "root" "pw" 1000 1000).2.

(** A state whose session entry does not parse, with a cache left over. *)
Definition corrupted : state :=
  State (users signed_in) (currentUser signed_in) (stored_users signed_in)
        (Some Corrupt).

(** The seeded registry with a second user, a technician. *)
Definition staffed : state :=
  (addUser seeded
     {[ "username" := VStr "rossi"; "password" := VStr "pw1";
        "displayName" := VStr "Rossi"; "role" := VStr "tech" ]}
     (noon 0%nat)).2.

(** A parser that reads a date as the number its text is long: all the
    statements about [validateFormData] hold for any parser, this one
    only serves to run them. *)
Definition parseLength (text : list Z) : option Z :=
  Some (Z.of_nat (length text)).

Definition filled : formData :=
  FormData (Some (units "1234-01")) (Some (units "Roma"))
           (Some (units "2024-01-02")) (Some (units "2024-01-03"))
           (Some (units "Sostituzione filtro")).

(** Two users are added, then the first is given the username of the
    second: two records with the same username under two keys. *)
Definition clashing : state :=
  run (constructor None None)
      [ AddUser {[ "username" := VStr "bob"; "password" := VStr "pw" ]}
                (noon 0%nat);
        AddUser {[ "username" := VStr "eve"; "password" := VStr "pw2" ]}
                (noon 1%nat);
        UpdateUser "bob" {[ "username" := VStr "eve" ]} (noon 2%nat) ].

(** ** Facts about [Map] *)

Section JsMapFacts.
Context {K V : Type} `{EqDecision K}.
Implicit Types (k : K) (v : V) (m : list (K * V)).

Lemma get_set_eq k v m : JsMap.get k (JsMap.set k v m) = Some v.
Proof.
  induction m as [|[k' v'] m IH]; simpl.
  - by rewrite decide_True.
  - destruct (decide (k = k')) as [->|Hne]; simpl.
    + by rewrite decide_True.
    + by rewrite decide_False.
Qed.

Lemma get_set_ne k k' v m :
  k ≠ k' → JsMap.get k' (JsMap.set k v m) = JsMap.get k' m.
Proof.
  intros Hne. induction m as [|[k0 v0] m IH]; simpl.
  - by rewrite decide_False.
  - destruct (decide (k = k0)) as [->|Hne0]; simpl.
    + by rewrite !decide_False.
    + by rewrite IH.
Qed.

Lemma get_None_keys k m : JsMap.get k m = None ↔ k ∉ JsMap.keys m.
Proof.
  unfold JsMap.keys. induction m as [|[k' v'] m IH]; simpl.
  - split; [intros _; apply not_elem_of_nil | done].
  - rewrite not_elem_of_cons. destruct (decide (k = k')) as [->|Hne].
    + split; [done | by intros [? _]].
    + rewrite IH. tauto.
Qed.

Lemma has_true_get k m : JsMap.has k m = true ↔ is_Some (JsMap.get k m).
Proof.
  unfold JsMap.has. destruct (JsMap.get k m) as [v|]; split; try done.
  all: by intros [? ?].
Qed.

Lemma has_false_get k m : JsMap.has k m = false ↔ JsMap.get k m = None.
Proof. unfold JsMap.has. by destruct (JsMap.get k m). Qed.

(** [set] on a key that is there overwrites in place. *)
Lemma set_present_keys k v m :
  is_Some (JsMap.get k m) → JsMap.keys (JsMap.set k v m) = JsMap.keys m.
Proof.
  unfold JsMap.keys. induction m as [|[k' v'] m IH]; simpl.
  - by intros [? ?].
  - destruct (decide (k = k')) as [->|Hne]; [done|].
    intros Hs. rewrite fmap_cons. f_equal. by apply IH.
Qed.

(** [set] on a key that is not there appends. *)
Lemma set_absent k v m :
  JsMap.get k m = None → JsMap.set k v m = m ++ [(k, v)].
Proof.
  induction m as [|[k' v'] m IH]; simpl; [done|].
  destruct (decide (k = k')) as [->|Hne]; [done|].
  intros Hn. by rewrite IH.
Qed.

Lemma set_keys_prefix k v m :
  JsMap.keys m `prefix_of` JsMap.keys (JsMap.set k v m).
Proof.
  destruct (JsMap.get k m) as [v'|] eqn:Hg.
  - by rewrite set_present_keys.
  - rewrite set_absent by done. unfold JsMap.keys. rewrite fmap_app.
    by apply prefix_app_r.
Qed.

Lemma set_keys_NoDup k v m :
  NoDup (JsMap.keys m) → NoDup (JsMap.keys (JsMap.set k v m)).
Proof.
  destruct (JsMap.get k m) as [v'|] eqn:Hg.
  - by rewrite set_present_keys.
  - rewrite set_absent by done. unfold JsMap.keys. rewrite fmap_app. simpl.
    intros Hnd. apply NoDup_app. split_and!; [done| |apply NoDup_singleton].
    intros x Hx ->%list_elem_of_singleton. by apply get_None_keys in Hg.
Qed.

(** What [set] does to the entries, one by one. *)
Lemma set_Forall (P : K * V → Prop) k v m :
  Forall P m → P (k, v) → Forall P (JsMap.set k v m).
Proof.
  intros Hm Hkv. induction Hm as [|[k' v'] m Hk' Hm IH]; simpl.
  - by constructor.
  - destruct (decide (k = k')); by constructor.
Qed.

Lemma get_Some_elem k v m : JsMap.get k m = Some v → (k, v) ∈ m.
Proof.
  induction m as [|[k' v'] m IH]; simpl; [done|].
  destruct (decide (k = k')) as [->|Hne].
  - intros [= ->]. apply list_elem_of_here.
  - intros Hg. apply list_elem_of_further. by apply IH.
Qed.
End JsMapFacts.

(** ** Facts about objects *)

(** Going through JSON text does not change what a property reads as. *)
Lemma get_json f o : get f (json o) = get f o.
Proof.
  unfold get, json. rewrite map_lookup_filter.
  destruct (o !! f) as [v|]; simpl; [|done].
  case_guard; simpl; [done|].
  destruct (decide (v = VUndef)) as [->|Hne]; [done|]. by destruct H.
Qed.

Lemma get_insert_eq f v o : get f (<[f := v]> o) = v.
Proof. unfold get. by rewrite lookup_insert_eq. Qed.

Lemma get_insert_ne f g v o : f ≠ g → get g (<[f := v]> o) = get g o.
Proof. intros Hne. unfold get. by rewrite lookup_insert_ne. Qed.

(** A spread [{ ...user, ...updates }] reads as [user] wherever the
    patch has no property. *)
Lemma get_union_absent f (updates user : record) :
  updates !! f = None → get f (updates ∪ user) = get f user.
Proof. intros Hn. unfold get. by rewrite lookup_union_r. Qed.

Lemma lookup_listed_in user f :
  f ∈ listed_fields → listed user !! f = Some (get f user).
Proof.
  unfold listed_fields, listed. rewrite !elem_of_cons, elem_of_nil.
  intros [->|[->|[->|[->|[->|[->|[]]]]]]]; by vm_compute.
Qed.

Lemma lookup_listed_out user f :
  f ∉ listed_fields → listed user !! f = None.
Proof.
  unfold listed_fields, listed. rewrite !not_elem_of_cons.
  intros (?&?&?&?&?&?&_).
  rewrite !lookup_insert_ne by done. by rewrite lookup_singleton_ne.
Qed.

(** ** Sessions: authentication and validation *)

(** C1: [authenticate] answers UserNotFound when the registry has no such
    key, UserInactive when the record's [active] is false (or any other
    falsy value), InvalidCredential when the record is active and its
    stored password differs from the supplied string; each of these
    leaves the whole state, and so the answer of [getCurrentUser], as it
    was.  Otherwise it builds a session from the record, expiring 24 hours
    after the clock reading, writes it to the store and to the cache and
    returns it. *)
Theorem authenticate_outcomes (st : state) (name password : string)
    (now1 now2 : Z) :
  (JsMap.get (VStr name) (users st) = None →
     authenticate st name password now1 now2 = (Failure UserNotFound, st)) ∧
  (∀ user, JsMap.get (VStr name) (users st) = Some user →
     (truthy (get "active" user) = false →
        authenticate st name password now1 now2
        = (Failure UserInactive, st)) ∧
     (truthy (get "active" user) = true →
      get "password" user ≠ VStr password →
        authenticate st name password now1 now2
        = (Failure InvalidCredential, st)) ∧
     (truthy (get "active" user) = true →
      get "password" user = VStr password →
        ∃ s st',
          authenticate st name password now1 now2 = (Success s, st') ∧
          username s = get "username" user ∧
          displayName s = get "displayName" user ∧
          role s = get "role" user ∧
          loginTime s = now1 ∧
          expiresAt s = now2 + 86400000 ∧
          persisted st' = Some s ∧
          currentUser st' = Some s ∧
          users st' = users st ∧
          stored_users st' = stored_users st)) ∧
  (∀ message st',
     authenticate st name password now1 now2 = (Failure message, st') →
     st' = st ∧
     ∀ now, (getCurrentUser st' now).1 = (getCurrentUser st now).1).
Proof.
  unfold authenticate. split_and!.
  - by intros ->.
  - intros user ->. split_and!.
    + by intros ->.
    + intros -> Hpw. by rewrite bool_decide_eq_true_2.
    + intros -> Hpw. rewrite bool_decide_eq_false_2 by (by intros ?). simpl.
      by eexists _, _.
  - intros message st'.
    destruct (JsMap.get (VStr name) (users st)) as [user|]; [|by intros [= _ <-]].
    destruct (truthy (get "active" user)); simpl; [|by intros [= _ <-]].
    case_bool_decide; [by intros [= _ <-] | done].
Qed.

Lemma authenticate_outcomes_witness :
  authenticate seeded "admin" "wrong-password" 1000 1000
  = (Failure InvalidCredential, seeded).
Proof.
  destruct (authenticate_outcomes seeded "admin" "wrong-password" 1000 1000)
    as (_ & Hfound & _).
  destruct (Hfound _ eq_refl) as (_ & Hwrong & _).
  apply Hwrong; [reflexivity | discriminate].
Defined.

(** The three ways [isSessionValid] can go, told by what the store holds. *)
Lemma isSessionValid_nothing st now :
  persisted st = None → isSessionValid st now = (false, st).
Proof.
  unfold persisted, isSessionValid.
  by destruct (stored_session st) as [[| |s]|].
Qed.

Lemma isSessionValid_expired st s now :
  persisted st = Some s → now > expiresAt s →
  isSessionValid st now = (false, logout st).
Proof.
  unfold persisted, isSessionValid.
  destruct (stored_session st) as [[| |s']|]; try done.
  intros [= ->] Hlate. destruct (Z.gtb_spec now (expiresAt s)); [done | lia].
Qed.

Lemma isSessionValid_alive st s now :
  persisted st = Some s → now ≤ expiresAt s →
  isSessionValid st now
  = (true,
     State (users st) (Some (extended s (now + sessionDuration)))
           (stored_users st)
           (Some (Doc (extended s (now + sessionDuration))))).
Proof.
  unfold persisted, isSessionValid.
  destruct (stored_session st) as [[| |s']|]; try done.
  intros [= ->] Hearly. destruct (Z.gtb_spec now (expiresAt s)); [lia | done].
Qed.

(** C2: [isSessionValid] at time [t].  With no session in the store it
    answers invalid and changes nothing.  With a session whose expiry is
    before [t] it answers invalid and empties both the store entry and the
    cache.  Otherwise it answers valid, and the stored and the cached
    session are the old one with [expiresAt = t + 86400000] (24 hours in
    milliseconds); a further successful validation at a later time [t2]
    then leaves an expiry [t2 + 86400000], which is not earlier. *)
Theorem isSessionValid_sliding (st : state) (t : Z) :
  (persisted st = None → isSessionValid st t = (false, st)) ∧
  (∀ s, persisted st = Some s → t > expiresAt s →
     ∃ st', isSessionValid st t = (false, st') ∧
            stored_session st' = None ∧ currentUser st' = None) ∧
  (∀ s, persisted st = Some s → t ≤ expiresAt s →
     ∃ st', isSessionValid st t = (true, st') ∧
            persisted st' = Some (extended s (t + 86400000)) ∧
            currentUser st' = Some (extended s (t + 86400000)) ∧
            ∀ t2 st'', t ≤ t2 → isSessionValid st' t2 = (true, st'') →
              ∃ s2, persisted st'' = Some s2 ∧
                    currentUser st'' = Some s2 ∧
                    expiresAt s2 = t2 + 86400000 ∧
                    t + 86400000 ≤ expiresAt s2).
Proof.
  split_and!.
  - apply isSessionValid_nothing.
  - intros s Hs Hlate. rewrite (isSessionValid_expired _ _ _ Hs Hlate).
    by eexists.
  - intros s Hs Hearly. rewrite (isSessionValid_alive _ _ _ Hs Hearly).
    eexists. split_and!; try done.
    intros t2 st'' Ht2 Hv.
    destruct (decide (t2 ≤ t + sessionDuration)) as [Hle|Hgt].
    + erewrite isSessionValid_alive in Hv; [|done|done].
      injection Hv as <-. eexists. split_and!; try done.
      simpl. unfold sessionDuration. lia.
    + erewrite isSessionValid_expired in Hv; [done|done|simpl; lia].
Qed.

Lemma isSessionValid_sliding_witness :
  ∃ st', isSessionValid signed_in 5000 = (true, st') ∧
         expiresAt <$> persisted st' = Some 86405000.
Proof.
  destruct (isSessionValid_sliding signed_in 5000) as (_ & _ & Halive).
  destruct (Halive _ eq_refl) as (st' & Hv & Hp & _); [vm_compute; discriminate|].
  exists st'. split; [exact Hv|]. rewrite Hp. reflexivity.
Defined.

(** C9, as the code has it: a session is valid exactly when the store
    holds one and the current time is not past its [expiresAt]; at the
    instant of expiry itself it is still valid. *)
Theorem isSessionValid_iff (st : state) (now : Z) :
  (isSessionValid st now).1 = true ↔
  ∃ s, persisted st = Some s ∧ now ≤ expiresAt s.
Proof.
  destruct (persisted st) as [s|] eqn:Hs.
  - destruct (decide (now ≤ expiresAt s)) as [Hle|Hgt].
    + rewrite (isSessionValid_alive _ _ _ Hs Hle). simpl.
      split; [|done]. intros _. by exists s.
    + rewrite (isSessionValid_expired _ s) by (done || lia). simpl.
      split; [done|]. intros (s' & [= <-] & Hge). lia.
  - rewrite isSessionValid_nothing by done. simpl.
    split; [done | by intros (s & ? & _)].
Qed.

(** C9 as the specification words it fails: validating the session of
    [signed_in] at the very millisecond of its expiry answers valid,
    although its [expiresAt] is not strictly greater than the time. *)
Lemma isSessionValid_at_expiry :
  ¬ ((isSessionValid signed_in 86401000).1 = true ↔
     ∃ s, persisted signed_in = Some s ∧ 86401000 < expiresAt s).
Proof.
  intros [Hvalid _]. destruct (Hvalid eq_refl) as (s & Hs & Hgt).
  vm_compute in Hs. injection Hs as <-. vm_compute in Hgt. discriminate.
Qed.

(** ** Sessions are independent of the registry *)

(** What [getCurrentUser] and [hasRole] answer, told by the store alone. *)
Lemma getCurrentUser_answer st now :
  (getCurrentUser st now).1
  = match persisted st with
    | Some s => if bool_decide (now ≤ expiresAt s)
                then Some (extended s (now + sessionDuration)) else None
    | None => None
    end.
Proof.
  unfold getCurrentUser. destruct (persisted st) as [s|] eqn:Hs.
  - case_bool_decide as Hle.
    + by rewrite (isSessionValid_alive _ _ _ Hs Hle).
    + by rewrite (isSessionValid_expired _ s) by (done || lia).
  - by rewrite isSessionValid_nothing.
Qed.

Lemma hasRole_answer st r now :
  (hasRole st r now).1
  = match (getCurrentUser st now).1 with
    | Some s => VBool (bool_decide (role s = VStr r))
    | None => VNull
    end.
Proof.
  unfold hasRole. by destruct (getCurrentUser st now) as [[s|] st'].
Qed.

Lemma persisted_store st1 st2 :
  stored_session st1 = stored_session st2 → persisted st1 = persisted st2.
Proof. unfold persisted. by intros ->. Qed.

(** [updateUser] touches neither the cached nor the stored session. *)
Lemma updateUser_session st name updates iso :
  stored_session (updateUser st name updates iso).2 = stored_session st ∧
  currentUser (updateUser st name updates iso).2 = currentUser st.
Proof.
  unfold updateUser. by destruct (JsMap.get (VStr name) (users st)).
Qed.

(** C10: [deactivateUser] leaves the stored and the cached session as they
    were, so [isSessionValid], [getCurrentUser], [hasRole] and [isAdmin]
    answer after it what they would have answered before it; a session
    that had not expired is still valid and is still what
    [getCurrentUser] returns (with its expiry moved, as every validation
    does).  The validity check reads nothing but the session entry of the
    store: swapping the registry, the cache and the stored user snapshot
    for any others changes neither its answer nor the session it leaves. *)
Theorem deactivateUser_keeps_session (st : state) (name iso : string)
    (now : Z) :
  let st' := (deactivateUser st name iso).2 in
  stored_session st' = stored_session st ∧
  currentUser st' = currentUser st ∧
  (isSessionValid st' now).1 = (isSessionValid st now).1 ∧
  (getCurrentUser st' now).1 = (getCurrentUser st now).1 ∧
  (∀ r, (hasRole st' r now).1 = (hasRole st r now).1) ∧
  (isAdmin st' now).1 = (isAdmin st now).1 ∧
  (∀ s, persisted st = Some s → now ≤ expiresAt s →
     (isSessionValid st' now).1 = true ∧
     (getCurrentUser st' now).1 = Some (extended s (now + 86400000))) ∧
  (∀ m cu su,
     let other := State m cu su (stored_session st) in
     (isSessionValid other now).1 = (isSessionValid st now).1 ∧
     stored_session (isSessionValid other now).2
       = stored_session (isSessionValid st now).2 ∧
     ((isSessionValid st now).1 = true →
        currentUser (isSessionValid other now).2
          = currentUser (isSessionValid st now).2)).
Proof.
  intros st'.
  destruct (updateUser_session st name {[ "active" := VBool false ]} iso)
    as [Hss Hcu].
  fold (deactivateUser st name iso) in Hss, Hcu. fold st' in Hss, Hcu.
  assert (Hp : persisted st' = persisted st) by by apply persisted_store.
  assert (Hget : (getCurrentUser st' now).1 = (getCurrentUser st now).1)
    by by rewrite !getCurrentUser_answer, Hp.
  split_and!; try done.
  - unfold isSessionValid. rewrite Hss.
    destruct (stored_session st) as [[| |s]|]; try done.
    by destruct (now >? expiresAt s).
  - intros r. by rewrite !hasRole_answer, Hget.
  - unfold isAdmin. by rewrite !hasRole_answer, Hget.
  - intros s Hs Hle. rewrite <- Hp in Hs. split.
    + by rewrite (isSessionValid_alive _ _ _ Hs Hle).
    + rewrite getCurrentUser_answer, Hs. by rewrite bool_decide_eq_true_2.
  - intros m cu su other. unfold isSessionValid, other; simpl.
    destruct (stored_session st) as [[| |s]|] eqn:Hst; simpl;
      rewrite ?Hst; try done.
    by destruct (now >? expiresAt s).
Qed.

Lemma deactivateUser_keeps_session_witness :
  (getCurrentUser (deactivateUser signed_in "admin" (noon 0%nat)).2 2000).1
  = Some (extended (Session (VStr "admin") (VStr "Amministratore")
                            (VStr "admin") 1000 86401000) 86402000).
Proof.
  destruct (deactivateUser_keeps_session signed_in "admin" (noon 0%nat) 2000)
    as (_ & _ & _ & _ & _ & _ & Halive & _).
  destruct (Halive _ eq_refl) as [_ Hget]; [vm_compute; discriminate|].
  exact Hget.
Defined.

(** ** The registry: adding users *)

(** After [addUser], its username is a key, whichever way it went. *)
Lemma addUser_registered st userData iso :
  JsMap.has (get "username" userData) (users (addUser st userData iso).2)
  = true.
Proof.
  unfold addUser.
  destruct (JsMap.has (get "username" userData) (users st)) eqn:Hh;
    simpl; [done|].
  apply has_true_get. rewrite get_set_eq. by eexists.
Qed.

(** C6: [addUser] on a username that is already a key answers
    DuplicateUser and leaves the state, hence the size of the registry, as
    it was.  On a username that is not a key it returns the new record,
    which is the argument with [active = true] and [createdAt] set to the
    clock reading, appends it to the registry under that username and
    writes the snapshot of the new registry to the store.  Whatever a
    first [addUser] did, a second one with the same username answers
    DuplicateUser and leaves the registry at the size the first left. *)
Theorem addUser_outcomes (st : state) (userData : record) (iso : string) :
  let u := get "username" userData in
  (JsMap.has u (users st) = true →
     addUser st userData iso = (Failure DuplicateUser, st)) ∧
  (JsMap.has u (users st) = false →
     ∃ newUser st',
       addUser st userData iso = (Success newUser, st') ∧
       get "active" newUser = VBool true ∧
       get "createdAt" newUser = VStr iso ∧
       (∀ f, f ≠ "active" → f ≠ "createdAt" →
             newUser !! f = userData !! f) ∧
       users st' = users st ++ [(u, newUser)] ∧
       JsMap.get u (users st') = Some newUser ∧
       stored_users st' = Some (Doc (json <$> JsMap.values (users st'))) ∧
       currentUser st' = currentUser st ∧
       stored_session st' = stored_session st) ∧
  (∀ userData2 iso2, get "username" userData2 = u →
     let st1 := (addUser st userData iso).2 in
     addUser st1 userData2 iso2 = (Failure DuplicateUser, st1) ∧
     JsMap.size (users (addUser st1 userData2 iso2).2)
       = JsMap.size (users st1)).
Proof.
  intros u. split_and!.
  - unfold addUser. fold u. by intros ->.
  - unfold addUser. fold u.
    intros Hfresh. rewrite Hfresh. eexists _, _. split_and!; try done.
    + by rewrite get_insert_ne, get_insert_eq.
    + by rewrite get_insert_eq.
    + intros f Hact Hcre. by rewrite !lookup_insert_ne.
    + simpl. apply set_absent. by apply has_false_get.
    + simpl. apply get_set_eq.
  - intros userData2 iso2 Hu st1.
    assert (Hdup : addUser st1 userData2 iso2 = (Failure DuplicateUser, st1)).
    { unfold addUser. rewrite Hu. unfold u, st1.
      by rewrite addUser_registered. }
    by rewrite Hdup.
Qed.

Lemma addUser_outcomes_witness :
  addUser seeded {[ "username" := VStr "admin"; "password" := VStr "x" ]}
          (noon 0%nat)
  = (Failure DuplicateUser, seeded).
Proof.
  destruct (addUser_outcomes seeded
              {[ "username" := VStr "admin"; "password" := VStr "x" ]}
              (noon 0%nat)) as (Hdup & _ & _).
  apply Hdup. reflexivity.
Defined.

(** ** The registry: keys and usernames *)

(** A registry operation either leaves the registry alone or sets one
    key; when the registry is keyed by username and the operation does
    not patch the username, the record it sets carries its key. *)
Lemma updateUser_users st name updates iso :
  users (updateUser st name updates iso).2 = users st ∨
  ∃ user,
    JsMap.get (VStr name) (users st) = Some user ∧
    users (updateUser st name updates iso).2
    = JsMap.set (VStr name) (<["updatedAt" := VStr iso]> (updates ∪ user))
                (users st).
Proof.
  unfold updateUser.
  destruct (JsMap.get (VStr name) (users st)) as [user|]; [|by left].
  right. by exists user.
Qed.

Lemma updateUser_sets st name updates iso :
  users (updateUser st name updates iso).2 = users st ∨
  ∃ k r, users (updateUser st name updates iso).2
         = JsMap.set k r (users st) ∧
         (updates !! "username" = None → keyed_by_username (users st) →
          get "username" r = k).
Proof.
  destruct (updateUser_users st name updates iso)
    as [?|(user & Hget & Hset)]; [by left|].
  right. eexists _, _. split; [exact Hset|]. intros Hpatch Hkeyed.
  rewrite get_insert_ne by done. rewrite get_union_absent by done.
  apply get_Some_elem in Hget.
  unfold keyed_by_username in Hkeyed. rewrite Forall_forall in Hkeyed.
  apply (Hkeyed _ Hget).
Qed.

Lemma step_users st op :
  users (step st op) = users st ∨
  ∃ k r, users (step st op) = JsMap.set k r (users st) ∧
         (keeps_username op → keyed_by_username (users st) →
          get "username" r = k).
Proof.
  destruct op as [userData iso|name updates iso|name iso|name iso
                 |name old new iso]; simpl.
  - unfold addUser.
    destruct (JsMap.has (get "username" userData) (users st)); [by left|].
    right. eexists _, _. split; [done|]. intros _ _.
    by rewrite !get_insert_ne.
  - apply updateUser_sets.
  - destruct (updateUser_sets st name {[ "active" := VBool true ]} iso)
      as [?|(k & r & ? & Hk)]; [by left|].
    right. exists k, r. split; [done|]. intros _. by apply Hk.
  - destruct (updateUser_sets st name {[ "active" := VBool false ]} iso)
      as [?|(k & r & ? & Hk)]; [by left|].
    right. exists k, r. split; [done|]. intros _. by apply Hk.
  - unfold changePassword.
    destruct (JsMap.get (VStr name) (users st)) as [user|]; [|by left].
    case_bool_decide; [by left|].
    destruct (updateUser_sets st name {[ "password" := VStr new ]} iso)
      as [?|(k & r & ? & Hk)]; [by left|].
    right. exists k, r. split; [done|]. intros _. by apply Hk.
Qed.

(** No operation removes, renames or reorders a key. *)
Lemma run_keys st ops :
  JsMap.keys (users st) `prefix_of` JsMap.keys (users (run st ops)) ∧
  (NoDup (JsMap.keys (users st)) →
   NoDup (JsMap.keys (users (run st ops)))).
Proof.
  unfold run. revert st. induction ops as [|op ops IH]; intros st; simpl.
  - done.
  - destruct (IH (step st op)) as [Hpre Hnd].
    destruct (step_users st op) as [Heq|(k & r & Heq & _)];
      rewrite Heq in Hpre, Hnd.
    + done.
    + split.
      * etrans; [apply (set_keys_prefix k r)|done].
      * intros Hst. by apply Hnd, set_keys_NoDup.
Qed.

Lemma run_keyed st ops :
  keyed_by_username (users st) → Forall keeps_username ops →
  keyed_by_username (users (run st ops)).
Proof.
  unfold run. revert st. induction ops as [|op ops IH]; intros st; simpl.
  - done.
  - intros Hkeyed [Hop Hops]%Forall_cons. apply IH; [|done].
    destruct (step_users st op) as [->|(k & r & -> & Hk)]; [done|].
    apply set_Forall; [done|]. simpl. by apply Hk.
Qed.




(** ** The registry: loading *)

Lemma set_nonempty {K V} `{EqDecision K} (k : K) (v : V) m :
  JsMap.set k v m ≠ [].
Proof. destruct m as [|[k' v'] m]; simpl; [done|]. by case_decide. Qed.

Lemma foldl_set_nonempty {K V E} `{EqDecision K} (f : E → K * V) l m :
  l ≠ [] ∨ m ≠ [] →
  foldl (λ m e, JsMap.set (f e).1 (f e).2 m) m l ≠ [].
Proof.
  revert m. induction l as [|e l IH]; intros m; simpl.
  - by intros [?|?].
  - intros _. apply IH. right. apply set_nonempty.
Qed.

Lemma initializeDefaultUsers_users st iso :
  users (initializeDefaultUsers st iso)
  = (λ user, (VStr "admin", user)) <$> defaultUsers iso.
Proof. reflexivity. Qed.

(** The fallback always leaves somebody in the registry. *)
Lemma loadStored_nonempty st clock : users (loadStored st clock) ≠ [].
Proof.
  unfold loadStored.
  destruct (stored_users st) as [[| |usersArray]|]; try done.
  destruct (Nat.eqb_spec
    (JsMap.size (users (with_users st (setEach usersArray [])))) 0) as [?|Hn];
    [done|].
  intros Hnil. apply Hn. by rewrite Hnil.
Qed.

(** So does a bootstrap mapping with at least one entry. *)
Lemma loadUsers_nonempty st response clock :
  response ≠ FetchUsers [] → users (loadUsers st response clock) ≠ [].
Proof.
  destruct response as [| | | |entries]; simpl;
    try (intros _; apply loadStored_nonempty).
  intros Hne.
  apply (foldl_set_nonempty (λ e : string * record, (VStr e.1, e.2))).
  left. destruct entries; [done|]. by rewrite imap_cons.
Qed.

(** C3 fails on the code: when the bootstrap source answers with an
    empty users mapping, [loadUsers] clears the registry, finds nothing
    to insert, saves the empty snapshot and returns; the registry is left
    with no user at all. *)
Theorem loadUsers_empty_bootstrap (st : state) (clock : nat → string) :
  users (loadUsers st (FetchUsers []) clock) = [] ∧
  JsMap.size (users (loadUsers st (FetchUsers []) clock)) = 0%nat ∧
  stored_users (loadUsers st (FetchUsers []) clock) = Some (Doc []).
Proof. done. Qed.

(** C8: when the bootstrap source gives no users mapping and the store
    has no snapshot (no entry, an empty one, one that does not parse, or
    an empty array), [loadUsers] leaves exactly one user in the registry,
    whatever it held before: username "admin", role "admin", active. *)
Theorem loadUsers_seeds_admin (st : state) (response : fetch_outcome)
    (clock : nat → string) :
  bootstrap_failed response →
  nothing_stored (stored_users st) →
  ∃ admin,
    users (loadUsers st response clock) = [(VStr "admin", admin)] ∧
    get "username" admin = VStr "admin" ∧
    get "role" admin = VStr "admin" ∧
    get "active" admin = VBool true.
Proof.
  intros Hfetch Hstore.
  assert (Hfallback : ∀ m,
    ∃ admin, users (loadStored (with_users st m) clock)
             = [(VStr "admin", admin)] ∧
             get "username" admin = VStr "admin" ∧
             get "role" admin = VStr "admin" ∧
             get "active" admin = VBool true).
  { intros m. unfold loadStored. simpl.
    destruct (stored_users st) as [[| |[|user usersArray]]|]; try done;
      by eexists. }
  destruct response as [| | | |entries]; simpl; [..|done].
  4: apply (Hfallback []).
  all: destruct st as [m cu su ss]; apply (Hfallback m).
Qed.

Lemma loadUsers_seeds_admin_witness :
  JsMap.keys (users (loadUsers (constructor None None) FetchRejected noon))
  = [VStr "admin"].
Proof.
  destruct (loadUsers_seeds_admin (constructor None None) FetchRejected noon)
    as (admin & -> & _); [exact I | exact I | reflexivity].
Defined.

(** ** The registry: saving and loading back *)

Lemma reread_keys m : JsMap.keys (reread m) = JsMap.keys m.
Proof.
  unfold reread, JsMap.keys. rewrite <- list_fmap_compose.
  by apply list_fmap_ext.
Qed.

Lemma reread_values m : JsMap.values (reread m) = json <$> JsMap.values m.
Proof.
  unfold reread, JsMap.values. rewrite <- !list_fmap_compose.
  by apply list_fmap_ext.
Qed.

(** Re-inserting the snapshot of a registry that is keyed by username
    rebuilds it entry by entry, in order. *)
Lemma setEach_snapshot m1 m2 :
  keyed_by_username m2 →
  NoDup (JsMap.keys (m1 ++ m2)) →
  setEach (json <$> JsMap.values m2) (reread m1) = reread (m1 ++ m2).
Proof.
  revert m1. induction m2 as [|[k r] m2 IH]; intros m1 Hkeyed Hnd.
  - by rewrite app_nil_r.
  - apply Forall_cons in Hkeyed as [Hk Hkeyed]. simpl in Hk.
    unfold setEach, JsMap.values. rewrite fmap_cons. simpl.
    rewrite get_json, Hk.
    rewrite set_absent.
    + replace (reread m1 ++ [(k, json r)]) with (reread (m1 ++ [(k, r)]))
        by (unfold reread; by rewrite fmap_app).
      replace (m1 ++ (k, r) :: m2) with ((m1 ++ [(k, r)]) ++ m2)
        by (by rewrite <- app_assoc).
      apply IH; [done|]. by rewrite <- app_assoc.
    + apply get_None_keys. rewrite reread_keys.
      unfold JsMap.keys in *. rewrite fmap_app, fmap_cons in Hnd.
      apply NoDup_app in Hnd as (_ & Hsep & _).
      intros Hin. apply (Hsep _ Hin). apply list_elem_of_here.
Qed.

Lemma same_fields_json_values (l : list record) :
  Forall2 same_fields (json <$> l) l.
Proof.
  induction l as [|r l IH]; simpl; constructor; [|done].
  intros f. apply get_json.
Qed.

Lemma reread_clean m :
  Forall (λ r, json r = r) (JsMap.values m) → reread m = m.
Proof.
  unfold reread, JsMap.values. induction m as [|[k r] m IH]; [done|].
  rewrite !fmap_cons. intros [Hr Hm]%Forall_cons. simpl in Hr.
  f_equal; [simpl; by rewrite Hr | by apply IH].
Qed.

Lemma foldl_set_fresh {K V E} `{EqDecision K} (f : E → K * V) l m :
  NoDup (JsMap.keys (m ++ (f <$> l))) →
  foldl (λ m e, JsMap.set (f e).1 (f e).2 m) m l = m ++ (f <$> l).
Proof.
  revert m. induction l as [|e l IH]; intros m Hnd; simpl.
  - by rewrite app_nil_r.
  - rewrite fmap_cons in Hnd.
    assert (Hfresh : JsMap.get (f e).1 m = None).
    { apply get_None_keys. unfold JsMap.keys in *.
      rewrite fmap_app, fmap_cons in Hnd.
      apply NoDup_app in Hnd as (_ & Hsep & _).
      intros Hin. apply (Hsep _ Hin). apply list_elem_of_here. }
    rewrite set_absent by done.
    rewrite IH.
    + rewrite <- app_assoc. by destruct (f e).
    + rewrite <- app_assoc. by destruct (f e).
Qed.

(** The snapshot of a registry whose records have distinct usernames
    loads back record by record, each under its username. *)
Lemma setEach_distinct (array : list record) :
  NoDup (get "username" <$> array) →
  setEach array [] = (λ user, (get "username" user, user)) <$> array.
Proof.
  intros Hnd.
  apply (foldl_set_fresh (λ user : record, (get "username" user, user))
           array []).
  simpl. unfold JsMap.keys. rewrite <- list_fmap_compose.
  by erewrite list_fmap_ext; [exact Hnd|].
Qed.

Lemma json_values_clean (l : list record) :
  Forall (λ r, json r = r) l → json <$> l = l.
Proof.
  induction 1 as [|r l Hr _ IH]; [done|]. by rewrite fmap_cons, Hr, IH.
Qed.

Lemma keyed_usernames m :
  keyed_by_username m → get "username" <$> JsMap.values m = JsMap.keys m.
Proof.
  unfold JsMap.values, JsMap.keys.
  induction 1 as [|[k r] m Hk _ IH]; [done|].
  rewrite !fmap_cons. simpl in *. by rewrite Hk, IH.
Qed.

(** C7, as the code has it: for a registry that holds at least one user
    and in which no two records have the same username, [saveUsers]
    followed by [loadUsers] with the bootstrap source giving no users
    brings back the same records in the same order, each reading the same
    at every property, and the very same records when none of them has a
    property set to [undefined] (which JSON text cannot carry).  Each
    record comes back under its username; so where every record was kept
    under its own username the keys are the same too, and the registry
    is the same registry. *)
Theorem save_load_roundtrip (st : state) (response : fetch_outcome)
    (clock : nat → string) :
  bootstrap_failed response →
  users st ≠ [] →
  NoDup (get "username" <$> JsMap.values (users st)) →
  let st' := loadUsers (saveUsers st) response clock in
  Forall2 same_fields (JsMap.values (users st')) (JsMap.values (users st)) ∧
  JsMap.keys (users st') = get "username" <$> JsMap.values (users st) ∧
  (Forall (λ r, json r = r) (JsMap.values (users st)) →
   JsMap.values (users st') = JsMap.values (users st)) ∧
  (keyed_by_username (users st) →
   JsMap.keys (users st') = JsMap.keys (users st) ∧
   (Forall (λ r, json r = r) (JsMap.values (users st)) →
    users st' = users st)).
Proof.
  intros Hfetch Hne Hnd st'.
  set (array := json <$> JsMap.values (users st)).
  assert (Hnames : get "username" <$> array
                   = get "username" <$> JsMap.values (users st)).
  { unfold array. rewrite <- list_fmap_compose. apply list_fmap_ext.
    intros i r _. apply get_json. }
  assert (Hset : setEach array []
                 = (λ user, (get "username" user, user)) <$> array).
  { apply setEach_distinct. by rewrite Hnames. }
  assert (Hload : users st' = (λ user, (get "username" user, user)) <$> array).
  { assert (Hstored : ∀ m,
      users (loadStored (with_users (saveUsers st) m) clock)
      = (λ user, (get "username" user, user)) <$> array).
    { intros m. unfold loadStored.
      cbn [saveUsers with_users stored_users users]. fold array.
      rewrite Hset. unfold array, JsMap.values.
      by destruct (users st) as [|kr m']. }
    unfold st'. destruct response as [| | | |entries]; simpl; [..|done].
    4: apply (Hstored []).
    all: apply (Hstored (users st)). }
  assert (Hvalues : JsMap.values (users st') = array).
  { rewrite Hload. unfold JsMap.values. rewrite <- list_fmap_compose.
    apply list_fmap_id. }
  assert (Hkeys : JsMap.keys (users st')
                  = get "username" <$> JsMap.values (users st)).
  { rewrite <- Hnames, Hload. unfold JsMap.keys.
    by rewrite <- list_fmap_compose. }
  split_and!.
  - rewrite Hvalues. apply same_fields_json_values.
  - done.
  - intros Hclean. rewrite Hvalues. by apply json_values_clean.
  - intros Hkeyed. split.
    + by rewrite Hkeys, keyed_usernames.
    + intros Hclean. rewrite Hload. unfold array.
      rewrite json_values_clean by done.
      clear -Hkeyed. unfold JsMap.values.
      induction Hkeyed as [|[k r] m Hk _ IH]; [done|].
      rewrite !fmap_cons. simpl in *. by rewrite Hk, IH.
Qed.

Lemma save_load_roundtrip_witness :
  JsMap.values (users (loadUsers (saveUsers renamed) FetchRejected noon))
  = JsMap.values (users renamed).
Proof.
  refine (proj1 (proj2 (proj2
    (save_load_roundtrip renamed FetchRejected noon I _ _))) _).
  - discriminate.
  - vm_compute. repeat constructor; set_solver.
  - vm_compute. repeat constructor.
Defined.

(** C7 as the specification words it fails in two ways.  The empty
    registry of a new manager saves as an empty array, and [loadUsers]
    answers an empty registry by seeding the default administrator: a
    user comes back that was not there.  And of the two records of
    [clashing], which have the same username, only the second comes
    back: a user is lost. *)
Lemma save_load_changes_records :
  (users (constructor None None) = [] ∧
   JsMap.keys
     (users (loadUsers (saveUsers (constructor None None))
                       FetchRejected noon))
   = [VStr "admin"]) ∧
  (get "password" <$> JsMap.values (users clashing)
   = [VStr "pw"; VStr "pw2"] ∧
   get "password" <$>
     JsMap.values (users (loadUsers (saveUsers clashing) FetchRejected noon))
   = [VStr "pw2"]).
Proof. by split_and!. Qed.

(** ** Listing the users *)

Lemma isSessionValid_users st now :
  users (isSessionValid st now).2 = users st.
Proof.
  unfold isSessionValid. destruct (stored_session st) as [[| |s]|]; try done.
  by destruct (now >? expiresAt s).
Qed.

Lemma getCurrentUser_users st now :
  users (getCurrentUser st now).2 = users st.
Proof.
  unfold getCurrentUser. pose proof (isSessionValid_users st now) as Hu.
  by destruct (isSessionValid st now) as [[] st'].
Qed.

(** What [getAllUsers] answers, told by what [getCurrentUser] answers. *)
Lemma getAllUsers_answer st now :
  (getAllUsers st now).1
  = match (getCurrentUser st now).1 with
    | Some s => if bool_decide (role s ≠ VStr "admin")
                then Failure PermissionDenied
                else Success (listed <$> JsMap.values (users st))
    | None => Failure PermissionDenied
    end.
Proof.
  unfold getAllUsers. pose proof (getCurrentUser_users st now) as Hu.
  destruct (getCurrentUser st now) as [[s|] st']; simpl in *; [|done].
  case_bool_decide; [done|]. by rewrite Hu.
Qed.

(** C4, as the code has it: [getAllUsers] answers PermissionDenied when
    the store holds no session, when the session has expired, and when
    its role is not "admin".  With an unexpired session of role "admin"
    it returns one object per user, in registry order, made of exactly
    the six properties username, displayName, role, active, createdAt and
    updatedAt, each read from the user's record; the object has no
    password and no permissions property, nor any other. *)
Theorem getAllUsers_outcomes (st : state) (now : Z) :
  (persisted st = None →
     (getAllUsers st now).1 = Failure PermissionDenied) ∧
  (∀ s, persisted st = Some s → now > expiresAt s →
     (getAllUsers st now).1 = Failure PermissionDenied) ∧
  (∀ s, persisted st = Some s → now ≤ expiresAt s →
     role s ≠ VStr "admin" →
     (getAllUsers st now).1 = Failure PermissionDenied) ∧
  (∀ s, persisted st = Some s → now ≤ expiresAt s →
     role s = VStr "admin" →
     ∃ entries,
       (getAllUsers st now).1 = Success entries ∧
       Forall2 (λ user entry,
                  (∀ f, f ∈ listed_fields → entry !! f = Some (get f user)) ∧
                  (∀ f, f ∉ listed_fields → entry !! f = None))
               (JsMap.values (users st)) entries ∧
       Forall (λ entry, entry !! "password" = None ∧
                        entry !! "permissions" = None) entries).
Proof.
  rewrite getAllUsers_answer, getCurrentUser_answer. split_and!.
  - by intros ->.
  - intros s -> Hlate. by rewrite bool_decide_eq_false_2 by lia.
  - intros s -> Hle Hrole. rewrite bool_decide_eq_true_2 by done.
    by rewrite bool_decide_eq_true_2.
  - intros s -> Hle Hrole. rewrite bool_decide_eq_true_2 by done.
    rewrite bool_decide_eq_false_2 by (simpl; by intros ?).
    eexists. split; [done|]. split.
    + apply Forall2_fmap_r, Forall_Forall2_diag, Forall_forall.
      intros user _. split; intros f Hf.
      * by apply lookup_listed_in.
      * by apply lookup_listed_out.
    + apply Forall_fmap, Forall_forall. intros user _. simpl.
      split; apply lookup_listed_out; unfold listed_fields;
        rewrite !not_elem_of_cons; split_and!; try done; apply not_elem_of_nil.
Qed.

Lemma getAllUsers_outcomes_witness :
  ∃ entries, (getAllUsers signed_in 2000).1 = Success entries ∧
             Forall (λ entry : record, entry !! "password" = None ∧
                                       entry !! "permissions" = None) entries.
Proof.
  destruct (getAllUsers_outcomes signed_in 2000) as (_ & _ & _ & Hadmin).
  destruct (Hadmin _ eq_refl) as (entries & Hres & _ & Hno);
    [vm_compute; discriminate | reflexivity |].
  by exists entries.
Defined.

(** C4 as the specification words it fails: the object returned for a user
    is not the record without its password.  For the administrator that
    the bootstrap source declared with the permission "manage", the
    returned object has no permissions property. *)
Lemma getAllUsers_drops_permissions :
  ∃ user entry,
    JsMap.values (users root_signed_in) = [user] ∧
    (getAllUsers root_signed_in 2000).1 = Success [entry] ∧
    get "permissions" user = VList ["manage"] ∧
    entry !! "permissions" = None ∧
    entry ≠ delete "password" user.
Proof.
  eexists _, _. split_and!; [reflexivity | reflexivity | reflexivity
                            | reflexivity |].
  intros Heq. apply (f_equal (λ o : record, o !! "permissions")) in Heq.
  vm_compute in Heq. discriminate.
Qed.

(** ** Sessions over time *)

(** X1: [logout] ends the session for good: whatever the state was, after
    it every validity check fails at every time, there is no current
    user, no role holds, the user list is denied; a second [logout]
    changes nothing, and the registry and its snapshot are untouched. *)
Theorem logout_ends_session (st : state) (now : Z) (r : string) :
  isSessionValid (logout st) now = (false, logout st) ∧
  (getCurrentUser (logout st) now).1 = None ∧
  (hasRole (logout st) r now).1 = VNull ∧
  (getAllUsers (logout st) now).1 = Failure PermissionDenied ∧
  logout (logout st) = logout st ∧
  same_registry st (logout st).
Proof.
  unfold getAllUsers, hasRole, getCurrentUser, same_registry.
  by split_and!.
Qed.

(** X2: a validity check that fails leaves a state in which every later
    check fails too, whatever the clock says: an expired session has been
    removed, and an entry that is missing, empty or unparseable stays so. *)
Theorem invalid_session_stays_invalid (st st1 : state) (t t' : Z) :
  isSessionValid st t = (false, st1) →
  isSessionValid st1 t' = (false, st1).
Proof.
  unfold isSessionValid at 1.
  destruct (stored_session st) as [[| |s]|] eqn:Hs.
  - intros [= <-]. unfold isSessionValid. by rewrite Hs.
  - intros [= <-]. unfold isSessionValid. by rewrite Hs.
  - destruct (t >? expiresAt s); [|done]. by intros [= <-].
  - intros [= <-]. unfold isSessionValid. by rewrite Hs.
Qed.

Lemma invalid_session_stays_invalid_witness :
  isSessionValid (isSessionValid signed_in 90000000).2 2000
  = (false, logout signed_in).
Proof.
  apply (invalid_session_stays_invalid signed_in (logout signed_in)
           90000000 2000).
  reflexivity.
Defined.

Lemma validateAt_alive st s times :
  persisted st = Some s →
  within_window (expiresAt s) times →
  Forall (λ valid, valid = true) (validateAt st times).1 ∧
  users (validateAt st times).2 = users st ∧
  ∀ t, last times = Some t →
       persisted (validateAt st times).2
       = Some (extended s (t + sessionDuration)).
Proof.
  revert st s. induction times as [|t ts IH]; intros st s Hs Hw; simpl.
  - by split_and!.
  - destruct Hw as [Ht Hw].
    rewrite (isSessionValid_alive _ _ _ Hs Ht).
    set (st1 := State _ _ _ _).
    destruct (IH st1 (extended s (t + sessionDuration)) eq_refl Hw)
      as (Hall & Hu & Hlast).
    destruct (validateAt st1 ts) as [rest st2] eqn:Hrest. simpl in *.
    split_and!; [by constructor | done |].
    intros t0. destruct ts as [|t1 ts'].
    + intros [= <-]. by injection Hrest as _ <-.
    + intros Hl. by rewrite (Hlast t0 Hl).
Qed.

(** X3: a session never expires while it is used: if the first check is
    made before it expires and each further check no more than 24 hours
    after the one before, every check succeeds, however long the chain,
    and the expiry ends 24 hours after the last check. *)
Theorem session_kept_alive (st : state) (s : session) (times : list Z) :
  persisted st = Some s →
  within_window (expiresAt s) times →
  (validateAt st times).1 = replicate (length times) true ∧
  ∀ t, last times = Some t →
       expiresAt <$> persisted (validateAt st times).2
       = Some (t + 86400000).
Proof.
  intros Hs Hw. destruct (validateAt_alive st s times Hs Hw) as (Hall & _ & Hl).
  split.
  - assert (Hlen : length (validateAt st times).1 = length times).
    { clear. revert st. induction times as [|t ts IH]; intros st; [done|].
      simpl. destruct (isSessionValid st t) as [valid st1].
      specialize (IH st1). destruct (validateAt st1 ts) as [rest st2].
      simpl in *. by rewrite IH. }
    assert (Hrep : ∀ l : list bool,
              Forall (λ valid, valid = true) l →
              l = replicate (length l) true).
    { induction 1 as [|valid l -> _ IH]; simpl; [done | by rewrite <- IH]. }
    rewrite <- Hlen. by apply Hrep.
  - intros t Ht. by rewrite (Hl t Ht).
Qed.

Lemma session_kept_alive_witness :
  (validateAt signed_in [80000000; 160000000; 240000000]).1
  = [true; true; true].
Proof.
  refine (proj1 (session_kept_alive signed_in _
                   [80000000; 160000000; 240000000] eq_refl _)).
  vm_compute. repeat split; discriminate.
Defined.

(** X4: [cleanupSessions] leaves the cache and the store in agreement.
    An unexpired session is kept, extended, in both; in every other case
    (no entry, an empty or unparseable entry, an expired session) the
    entry is removed and the cache emptied.  The registry is untouched. *)
Theorem cleanupSessions_coherent (st : state) (now : Z) :
  let st' := cleanupSessions st now in
  currentUser st' = persisted st' ∧
  same_registry st st' ∧
  (∀ s, persisted st = Some s → now ≤ expiresAt s →
     stored_session st' = Some (Doc (extended s (now + 86400000)))) ∧
  ((persisted st = None ∨ ∃ s, persisted st = Some s ∧ expiresAt s < now) →
     stored_session st' = None ∧ currentUser st' = None).
Proof.
  intros st'. unfold st', cleanupSessions.
  destruct (persisted st) as [s|] eqn:Hs.
  - destruct (decide (now ≤ expiresAt s)) as [Hle|Hgt].
    + rewrite (isSessionValid_alive _ _ _ Hs Hle). split_and!; try done.
      * by intros s' [= <-] _.
      * intros [?|(s' & [= <-] & ?)]; [done | lia].
    + rewrite (isSessionValid_expired _ s) by (done || lia).
      split_and!; try done. intros s' [= <-] ?. lia.
  - rewrite isSessionValid_nothing by done. by split_and!.
Qed.

Lemma cleanupSessions_coherent_witness :
  stored_session (cleanupSessions corrupted 2000) = None ∧
  currentUser (cleanupSessions corrupted 2000) = None.
Proof.
  destruct (cleanupSessions_coherent corrupted 2000) as (_ & _ & _ & Hgone).
  apply Hgone. left. reflexivity.
Defined.

(** X5: after a successful [authenticate], [getCurrentUser] within 24
    hours of the login returns the session of that user (username,
    display name and role as the record had them at login, login time as
    read then) with its expiry moved to 24 hours after the call, and
    [hasRole] answers by the role the record had; later than that there
    is no current user and the stored session is removed. *)
Theorem login_then_current (st : state) (name password : string)
    (user : record) (now1 now2 now : Z) :
  JsMap.get (VStr name) (users st) = Some user →
  truthy (get "active" user) = true →
  get "password" user = VStr password →
  let st' := (authenticate st name password now1 now2).2 in
  (now ≤ now2 + 86400000 →
     (getCurrentUser st' now).1
     = Some (Session (get "username" user) (get "displayName" user)
                     (get "role" user) now1 (now + 86400000)) ∧
     ∀ r, (hasRole st' r now).1
          = VBool (bool_decide (get "role" user = VStr r))) ∧
  (now2 + 86400000 < now →
     (getCurrentUser st' now).1 = None ∧
     stored_session (getCurrentUser st' now).2 = None).
Proof.
  intros Hget Hact Hpw st'.
  assert (Hp : persisted st'
               = Some (Session (get "username" user) (get "displayName" user)
                               (get "role" user) now1
                               (now2 + sessionDuration))).
  { unfold st', authenticate. rewrite Hget, Hact. simpl.
    by rewrite bool_decide_eq_false_2 by (by intros ?). }
  split.
  - intros Hle.
    assert (Hcur : (getCurrentUser st' now).1
       = Some (Session (get "username" user) (get "displayName" user)
                       (get "role" user) now1 (now + 86400000))).
    { rewrite getCurrentUser_answer, Hp. simpl.
      by rewrite bool_decide_eq_true_2 by (unfold sessionDuration; lia). }
    split; [done|]. intros r. by rewrite hasRole_answer, Hcur.
  - intros Hlate. unfold getCurrentUser.
    rewrite (isSessionValid_expired _ _ _ Hp)
      by (simpl; unfold sessionDuration; lia).
    done.
Qed.

Lemma login_then_current_witness :
  (hasRole signed_in "admin" 5000).1 = VBool true.
Proof.
  destruct (login_then_current seeded "admin" "2977" _ 1000 1000 5000
              eq_refl eq_refl eq_refl) as [Hin _].
  destruct Hin as [_ Hrole]; [vm_compute; discriminate|].
  exact (Hrole "admin").
Defined.

(** X6: [hasRole] answers [true] exactly when the store holds an
    unexpired session whose role is the one asked for; it answers [null],
    not [false], exactly when there is no valid session; it answers
    [false] otherwise.  It never answers anything else. *)
Theorem hasRole_answers (st : state) (r : string) (now : Z) :
  ((hasRole st r now).1 = VBool true ↔
     ∃ s, persisted st = Some s ∧ now ≤ expiresAt s ∧ role s = VStr r) ∧
  ((hasRole st r now).1 = VNull ↔ (isSessionValid st now).1 = false) ∧
  ((hasRole st r now).1 = VBool false ↔
     ∃ s, persisted st = Some s ∧ now ≤ expiresAt s ∧ role s ≠ VStr r).
Proof.
  rewrite hasRole_answer, getCurrentUser_answer.
  destruct (persisted st) as [s|] eqn:Hs.
  - destruct (decide (now ≤ expiresAt s)) as [Hle|Hgt].
    + rewrite bool_decide_eq_true_2 by done.
      rewrite (isSessionValid_alive _ _ _ Hs Hle). simpl.
      split_and!; split; try done.
      * intros [= Hr%bool_decide_eq_true]. by exists s.
      * intros (s' & [= <-] & _ & Hr). by rewrite bool_decide_eq_true_2.
      * intros [= Hr%bool_decide_eq_false]. by exists s.
      * intros (s' & [= <-] & _ & Hr). by rewrite bool_decide_eq_false_2.
    + rewrite bool_decide_eq_false_2 by done.
      rewrite (isSessionValid_expired _ s) by (done || lia). simpl.
      split_and!; split; try done; by intros (s' & [= <-] & ? & _).
  - rewrite isSessionValid_nothing by done. simpl.
    split_and!; split; try done; by intros (s' & ? & _).
Qed.

(** ** Registry and session do not interfere *)

Lemma step_session st op : same_session st (step st op).
Proof.
  unfold same_session.
  destruct op as [userData iso|name updates iso|name iso|name iso
                 |name old new iso]; simpl.
  - unfold addUser.
    by destruct (JsMap.has (get "username" userData) (users st)).
  - destruct (updateUser_session st name updates iso). by split.
  - destruct (updateUser_session st name {[ "active" := VBool true ]} iso).
    by split.
  - destruct (updateUser_session st name {[ "active" := VBool false ]} iso).
    by split.
  - unfold changePassword.
    destruct (JsMap.get (VStr name) (users st)) as [user|]; [|done].
    case_bool_decide; [done|].
    destruct (updateUser_session st name {[ "password" := VStr new ]} iso).
    by split.
Qed.

(** X7: no sequence of registry operations touches the session.  Adding
    users, changing a role, a password or any other field, activating or
    deactivating leaves the cached and the stored session as they were,
    so the current user and the roles it holds are those fixed at login,
    whatever has become of its record since. *)
Theorem registry_operations_keep_session (st : state)
    (ops : list operation) (r : string) (now : Z) :
  same_session st (run st ops) ∧
  (getCurrentUser (run st ops) now).1 = (getCurrentUser st now).1 ∧
  (hasRole (run st ops) r now).1 = (hasRole st r now).1.
Proof.
  assert (Hs : same_session st (run st ops)).
  { unfold run. revert st. induction ops as [|op ops IH]; intros st; [done|].
    simpl. destruct (IH (step st op)) as [Hc Hss].
    destruct (step_session st op) as [Hc' Hss'].
    split; congruence. }
  destruct Hs as [Hc Hss].
  assert (Hcur : (getCurrentUser (run st ops) now).1
                 = (getCurrentUser st now).1).
  { rewrite !getCurrentUser_answer. by rewrite (persisted_store _ st). }
  split_and!; [done | done |]. by rewrite !hasRole_answer, Hcur.
Qed.

(** X8: no session operation touches the registry: [authenticate],
    [isSessionValid], [getCurrentUser], [hasRole], [isAdmin],
    [getAllUsers], [logout] and [cleanupSessions] leave the users and
    their stored snapshot as they were. *)
Theorem session_operations_keep_registry (st : state)
    (name password r : string) (now1 now2 now : Z) :
  same_registry st (authenticate st name password now1 now2).2 ∧
  same_registry st (isSessionValid st now).2 ∧
  same_registry st (getCurrentUser st now).2 ∧
  same_registry st (hasRole st r now).2 ∧
  same_registry st (isAdmin st now).2 ∧
  same_registry st (getAllUsers st now).2 ∧
  same_registry st (logout st) ∧
  same_registry st (cleanupSessions st now).
Proof.
  assert (Hv : same_registry st (isSessionValid st now).2).
  { unfold isSessionValid.
    destruct (stored_session st) as [[| |s]|]; try done.
    by destruct (now >? expiresAt s). }
  assert (Hc : same_registry st (getCurrentUser st now).2).
  { unfold getCurrentUser.
    by destruct (isSessionValid st now) as [[] st']. }
  assert (Hr : ∀ r', same_registry st (hasRole st r' now).2).
  { intros r'. unfold hasRole.
    by destruct (getCurrentUser st now) as [[s|] st']. }
  split_and!; try done.
  - unfold authenticate.
    destruct (JsMap.get (VStr name) (users st)) as [user|]; [|done].
    destruct (truthy (get "active" user)); simpl; [|done].
    by case_bool_decide.
  - apply Hr.
  - unfold getAllUsers.
    destruct (getCurrentUser st now) as [[s|] st']; [|done].
    by case_bool_decide.
  - unfold cleanupSessions.
    destruct (isSessionValid st now) as [[] st']; [done|].
    by destruct Hv.
Qed.

(** ** The registry: updates, passwords, activation *)

(** [authenticate] succeeds exactly on an active user and its password. *)
Lemma authenticate_succeeds_iff st name password now1 now2 :
  (∃ s, (authenticate st name password now1 now2).1 = Success s) ↔
  ∃ user, JsMap.get (VStr name) (users st) = Some user ∧
          truthy (get "active" user) = true ∧
          get "password" user = VStr password.
Proof.
  unfold authenticate.
  destruct (JsMap.get (VStr name) (users st)) as [user|].
  - destruct (truthy (get "active" user)) eqn:Hact; simpl.
    + case_bool_decide as Hpw; simpl.
      * split; [by intros [s ?]|]. by intros (user' & [= <-] & _ & ?).
      * split; [|by eexists]. intros _. by exists user.
    + split; [by intros [s ?]|]. intros (user' & [= <-] & ? & _). congruence.
  - split; [by intros [s ?] | by intros (user' & ? & _)].
Qed.

Lemma updateUser_found st name updates iso user :
  JsMap.get (VStr name) (users st) = Some user →
  updateUser st name updates iso
  = (Success (<["updatedAt" := VStr iso]> (updates ∪ user)),
     saveUsers (with_users st
       (JsMap.set (VStr name) (<["updatedAt" := VStr iso]> (updates ∪ user))
                  (users st)))).
Proof. unfold updateUser. by intros ->. Qed.

(** How the merged record reads. *)
Lemma lookup_updated (updates user : record) iso f :
  f ≠ "updatedAt" →
  (<["updatedAt" := VStr iso]> (updates ∪ user)) !! f
  = match updates !! f with Some v => Some v | None => user !! f end.
Proof.
  intros Hf. rewrite lookup_insert_ne by done. rewrite lookup_union.
  by destruct (updates !! f), (user !! f).
Qed.

(** X9: [updateUser] on an unknown username answers UserNotFound and
    changes nothing.  On a known one it returns and stores, under the
    same key, the merged record: every property of the patch with the
    value the patch gives it, every other property as the user had it,
    and [updatedAt] set to the clock reading even when the patch names
    one.  No other user is touched, no key is added, moved or removed,
    and the snapshot of the new registry is written to the store. *)
Theorem updateUser_outcomes (st : state) (name : string) (updates : record)
    (iso : string) :
  (JsMap.get (VStr name) (users st) = None →
     updateUser st name updates iso = (Failure UserNotFound, st)) ∧
  (∀ user, JsMap.get (VStr name) (users st) = Some user →
     ∃ updated st',
       updateUser st name updates iso = (Success updated, st') ∧
       JsMap.get (VStr name) (users st') = Some updated ∧
       get "updatedAt" updated = VStr iso ∧
       (∀ f v, f ≠ "updatedAt" → updates !! f = Some v →
               updated !! f = Some v) ∧
       (∀ f, f ≠ "updatedAt" → updates !! f = None →
             updated !! f = user !! f) ∧
       (∀ k, k ≠ VStr name →
             JsMap.get k (users st') = JsMap.get k (users st)) ∧
       JsMap.keys (users st') = JsMap.keys (users st) ∧
       synced st').
Proof.
  split.
  - unfold updateUser. by intros ->.
  - intros user Hget. rewrite (updateUser_found _ _ _ _ _ Hget).
    eexists _, _. split; [done|]. simpl. split_and!.
    + apply get_set_eq.
    + apply get_insert_eq.
    + intros f v Hf Hv. by rewrite lookup_updated, Hv.
    + intros f Hf Hv. by rewrite lookup_updated, Hv.
    + intros k Hk. by apply get_set_ne.
    + apply set_present_keys. by rewrite Hget.
    + done.
Qed.

Lemma updateUser_outcomes_witness :
  get "role" <$> JsMap.get (VStr "rossi")
    (users (updateUser staffed "rossi" {[ "role" := VStr "admin" ]}
                       (noon 1%nat)).2)
  = Some (VStr "admin").
Proof.
  destruct (updateUser_outcomes staffed "rossi" {[ "role" := VStr "admin" ]}
              (noon 1%nat)) as [_ Hfound].
  destruct (Hfound _ eq_refl) as (updated & st' & Hres & Hget & _ & Hpatch & _).
  rewrite Hres. simpl. rewrite Hget. simpl. unfold get.
  by rewrite (Hpatch "role" (VStr "admin")).
Defined.

(** X10: [changePassword] answers UserNotFound on an unknown username and
    refuses a wrong current password, changing nothing in either case; it
    asks for no session and does not look at [active].  Otherwise the
    stored password becomes the new one, [updatedAt] the clock reading,
    and nothing else in the record changes; from then on an active user
    signs in with the new password and with no other. *)
Theorem changePassword_outcomes (st : state)
    (name oldPassword newPassword iso : string) :
  (JsMap.get (VStr name) (users st) = None →
     changePassword st name oldPassword newPassword iso
     = (Failure UserNotFound, st)) ∧
  (∀ user, JsMap.get (VStr name) (users st) = Some user →
     get "password" user ≠ VStr oldPassword →
     changePassword st name oldPassword newPassword iso
     = (Failure InvalidCurrentPassword, st)) ∧
  (∀ user, JsMap.get (VStr name) (users st) = Some user →
     get "password" user = VStr oldPassword →
     ∃ updated st',
       changePassword st name oldPassword newPassword iso
       = (Success updated, st') ∧
       JsMap.get (VStr name) (users st') = Some updated ∧
       get "password" updated = VStr newPassword ∧
       get "updatedAt" updated = VStr iso ∧
       (∀ f, f ≠ "password" → f ≠ "updatedAt" →
             updated !! f = user !! f) ∧
       (truthy (get "active" user) = true →
        ∀ password now1 now2,
          (∃ s, (authenticate st' name password now1 now2).1 = Success s)
          ↔ password = newPassword)).
Proof.
  unfold changePassword. split_and!.
  - by intros ->.
  - intros user -> Hpw. by rewrite bool_decide_eq_true_2.
  - intros user Hget Hpw. rewrite Hget.
    rewrite bool_decide_eq_false_2 by (by intros ?).
    rewrite (updateUser_found _ _ _ _ _ Hget).
    set (updated := <["updatedAt" := VStr iso]> (_ ∪ user)).
    assert (Hnew : get "password" updated = VStr newPassword).
    { unfold get, updated. rewrite lookup_updated by done.
      by rewrite lookup_singleton_eq. }
    assert (Hrest : ∀ f, f ≠ "password" → f ≠ "updatedAt" →
                         updated !! f = user !! f).
    { intros f Hf1 Hf2. unfold updated. rewrite lookup_updated by done.
      by rewrite lookup_singleton_ne. }
    eexists _, _. split; [done|]. simpl. split_and!; try done.
    + apply get_set_eq.
    + apply get_insert_eq.
    + intros Hact password now1 now2.
      rewrite authenticate_succeeds_iff. simpl. rewrite get_set_eq. split.
      * intros (user' & [= <-] & _ & Hp). congruence.
      * intros ->. exists updated. split_and!; try done.
        unfold get. by rewrite Hrest.
Qed.

Lemma changePassword_outcomes_witness :
  changePassword seeded "admin" "0000" "s3cret" (noon 1%nat)
  = (Failure InvalidCurrentPassword, seeded).
Proof.
  destruct (changePassword_outcomes seeded "admin" "0000" "s3cret"
              (noon 1%nat)) as (_ & Hwrong & _).
  apply (Hwrong _ eq_refl). discriminate.
Defined.

(** X11: a deactivated user cannot sign in: [authenticate] answers
    UserInactive whatever password is given, right or wrong, and leaves
    the state alone.  Once activated again the user signs in exactly with
    the password the record had before. *)
Theorem deactivation_and_login (st : state) (name : string) (user : record)
    (iso1 iso2 password : string) (now1 now2 : Z) :
  JsMap.get (VStr name) (users st) = Some user →
  let st1 := (deactivateUser st name iso1).2 in
  let st2 := (activateUser st1 name iso2).2 in
  authenticate st1 name password now1 now2 = (Failure UserInactive, st1) ∧
  ((∃ s, (authenticate st2 name password now1 now2).1 = Success s)
   ↔ get "password" user = VStr password).
Proof.
  intros Hget st1 st2.
  set (off := <["updatedAt" := VStr iso1]>
                ({[ "active" := VBool false ]} ∪ user)).
  assert (Hst1 : JsMap.get (VStr name) (users st1) = Some off).
  { unfold st1, deactivateUser. rewrite (updateUser_found _ _ _ _ _ Hget).
    simpl. apply get_set_eq. }
  set (on := <["updatedAt" := VStr iso2]>
               ({[ "active" := VBool true ]} ∪ off)).
  assert (Hst2 : JsMap.get (VStr name) (users st2) = Some on).
  { unfold st2, activateUser. rewrite (updateUser_found _ _ _ _ _ Hst1).
    simpl. apply get_set_eq. }
  split.
  - unfold authenticate. rewrite Hst1.
    assert (Hoff : get "active" off = VBool false).
    { unfold get, off. rewrite lookup_updated by done.
      by rewrite lookup_singleton_eq. }
    by rewrite Hoff.
  - rewrite authenticate_succeeds_iff, Hst2.
    assert (Hon : get "active" on = VBool true).
    { unfold get, on. rewrite lookup_updated by done.
      by rewrite lookup_singleton_eq. }
    assert (Hpw : get "password" on = get "password" user).
    { unfold get, on, off. rewrite !lookup_updated by done.
      by rewrite !lookup_singleton_ne. }
    split.
    + intros (user' & [= <-] & _ & Hp). by rewrite <- Hpw.
    + intros Hp. exists on. split_and!; [done | by rewrite Hon | congruence].
Qed.

Lemma deactivation_and_login_witness :
  authenticate (deactivateUser staffed "rossi" (noon 1%nat)).2
               "rossi" "pw1" 1000 1000
  = (Failure UserInactive, (deactivateUser staffed "rossi" (noon 1%nat)).2).
Proof.
  exact (proj1 (deactivation_and_login staffed "rossi" _ (noon 1%nat)
                  (noon 2%nat) "pw1" 1000 1000 eq_refl)).
Defined.

(** X12: a user that [addUser] has just registered can sign in at once
    with the password it was given, whatever [active] the argument
    carried, and the session carries the username, display name and role
    of the argument. *)
Theorem addUser_then_authenticate (st : state) (userData : record)
    (name password iso : string) (now1 now2 : Z) :
  JsMap.has (VStr name) (users st) = false →
  get "username" userData = VStr name →
  get "password" userData = VStr password →
  ∃ st',
    authenticate (addUser st userData iso).2 name password now1 now2
    = (Success (Session (VStr name) (get "displayName" userData)
                        (get "role" userData) now1 (now2 + 86400000)),
       st').
Proof.
  intros Hfresh Hname Hpw. unfold addUser. rewrite Hname, Hfresh. simpl.
  unfold authenticate. simpl. rewrite get_set_eq.
  rewrite get_insert_ne, get_insert_eq by done. simpl.
  rewrite !get_insert_ne by done.
  rewrite bool_decide_eq_false_2 by (by intros ?).
  rewrite Hname. by eexists.
Qed.

Lemma addUser_then_authenticate_witness :
  ∃ st', authenticate staffed "rossi" "pw1" 1000 1000
         = (Success (Session (VStr "rossi") (VStr "Rossi") (VStr "tech")
                             1000 86401000), st').
Proof.
  destruct (addUser_then_authenticate seeded
              {[ "username" := VStr "rossi"; "password" := VStr "pw1";
                 "displayName" := VStr "Rossi"; "role" := VStr "tech" ]}
              "rossi" "pw1" (noon 0%nat) 1000 1000) as [st' Hlogin];
    [reflexivity | reflexivity | reflexivity |].
  exists st'. exact Hlogin.
Defined.

(** ** The registry and its snapshot *)

Lemma foldl_set_keyed {E} (f : E → value * record) l m :
  Forall (λ e, get "username" (f e).2 = (f e).1) l →
  keyed_by_username m → NoDup (JsMap.keys m) →
  keyed_by_username (foldl (λ m e, JsMap.set (f e).1 (f e).2 m) m l) ∧
  NoDup (JsMap.keys (foldl (λ m e, JsMap.set (f e).1 (f e).2 m) m l)).
Proof.
  intros Hl. revert m. induction Hl as [|e l He Hl IH]; intros m Hk Hnd.
  - done.
  - simpl. apply IH.
    + apply set_Forall; [done|]. by destruct (f e).
    + by apply set_keys_NoDup.
Qed.

Lemma step_saves st op : step st op = st ∨ synced (step st op).
Proof.
  assert (Hupd : ∀ name updates iso,
            (updateUser st name updates iso).2 = st ∨
            synced (updateUser st name updates iso).2).
  { intros name updates iso. unfold updateUser.
    destruct (JsMap.get (VStr name) (users st)); [by right | by left]. }
  destruct op as [userData iso|name updates iso|name iso|name iso
                 |name old new iso]; simpl; try apply Hupd.
  - unfold addUser.
    destruct (JsMap.has (get "username" userData) (users st));
      [by left | by right].
  - unfold changePassword.
    destruct (JsMap.get (VStr name) (users st)) as [user|]; [|by left].
    case_bool_decide; [by left | apply Hupd].
Qed.

Lemma run_synced st ops : synced st → synced (run st ops).
Proof.
  unfold run. revert st. induction ops as [|op ops IH]; intros st Hs; [done|].
  simpl. apply IH. by destruct (step_saves st op) as [->|?].
Qed.

(** X13: a registry operation either fails and leaves the whole state
    exactly as it was, or leaves the stored snapshot in step with the
    registry; so a snapshot that is in step stays in step through any
    sequence of operations. *)
Theorem registry_operations_save (st : state) (ops : list operation) :
  (∀ op, step st op = st ∨ synced (step st op)) ∧
  (synced st → synced (run st ops)).
Proof. split; [apply step_saves | apply run_synced]. Qed.

Lemma registry_operations_save_witness :
  synced (run seeded
            [ AddUser {[ "username" := VStr "bob" ]} (noon 0%nat);
              AddUser {[ "username" := VStr "bob" ]} (noon 1%nat);
              DeactivateUser "nobody" (noon 2%nat) ]).
Proof.
  apply (registry_operations_save seeded). reflexivity.
Defined.

(** X14: whatever the bootstrap source answers and whatever the store
    holds, [loadUsers] leaves a registry whose keys are distinct and
    whose records each carry their key as username. *)
Theorem loadUsers_keyed (st : state) (response : fetch_outcome)
    (clock : nat → string) :
  NoDup (JsMap.keys (users (loadUsers st response clock))) ∧
  keyed_by_username (users (loadUsers st response clock)).
Proof.
  assert (Hseed : ∀ st iso,
    NoDup (JsMap.keys (users (initializeDefaultUsers st iso))) ∧
    keyed_by_username (users (initializeDefaultUsers st iso))).
  { intros st0 iso. rewrite initializeDefaultUsers_users. split.
    - apply NoDup_singleton.
    - by repeat constructor. }
  assert (Hstored : ∀ st,
    NoDup (JsMap.keys (users (loadStored st clock))) ∧
    keyed_by_username (users (loadStored st clock))).
  { intros st0. unfold loadStored.
    destruct (stored_users st0) as [[| |usersArray]|]; try apply Hseed.
    destruct (_ =? _)%nat; [apply Hseed|]. simpl.
    destruct (foldl_set_keyed (λ user : record, (get "username" user, user))
                usersArray []) as [Hk Hnd].
    - by apply Forall_forall.
    - constructor.
    - constructor.
    - by split. }
  destruct response as [| | | |entries]; simpl; try apply Hstored.
  destruct (foldl_set_keyed (λ e : string * record, (VStr e.1, e.2))
              (imap (λ i e, (e.1, bootstrapUser e.1 e.2 (clock i))) entries)
              []) as [Hk Hnd].
  - apply Forall_forall. intros e (i & [name userData] & -> & _)%elem_of_lookup_imap.
    reflexivity.
  - constructor.
  - constructor.
  - by split.
Qed.

Lemma loadStored_snapshot st m clock :
  stored_users st = Some (Doc (json <$> JsMap.values m)) →
  m ≠ [] → NoDup (JsMap.keys m) → keyed_by_username m →
  users (loadStored st clock) = reread m.
Proof.
  intros Hst Hne Hnd Hkeyed. unfold loadStored. rewrite Hst.
  pose proof (setEach_snapshot [] m Hkeyed Hnd) as Hsnap.
  change (reread []) with (@nil (value * record)) in Hsnap.
  rewrite app_nil_l in Hsnap.
  cbn [with_users users]. rewrite Hsnap. by destruct m.
Qed.

(** X15: the registry survives a restart.  Take a registry with at least
    one user, keyed by username and in step with its snapshot, and run
    any operations on it whose patches do not name a username.  A new
    manager started over the same store, with the bootstrap source giving
    no users, loads the same usernames in the same order, each with a
    record that reads the same at every property. *)
Theorem restart_restores_registry (st : state) (ops : list operation)
    (response : fetch_outcome) (clock : nat → string) :
  users st ≠ [] →
  NoDup (JsMap.keys (users st)) →
  keyed_by_username (users st) →
  synced st →
  Forall keeps_username ops →
  bootstrap_failed response →
  let st' := run st ops in
  let restarted :=
    loadUsers (constructor (stored_users st') (stored_session st'))
              response clock in
  JsMap.keys (users restarted) = JsMap.keys (users st') ∧
  Forall2 same_fields (JsMap.values (users restarted))
                      (JsMap.values (users st')).
Proof.
  intros Hne Hnd Hkeyed Hsync Hops Hfetch st' restarted.
  destruct (run_keys st ops) as [Hpre Hnd'].
  pose proof (run_keyed st ops Hkeyed Hops) as Hkeyed'.
  pose proof (run_synced st ops Hsync) as Hsync'.
  assert (Hne' : users st' ≠ []).
  { intros Hnil. unfold st' in Hnil. rewrite Hnil in Hpre.
    destruct Hpre as [more Hpre]. destruct (users st); [done|].
    discriminate. }
  assert (Hload : users restarted = reread (users st')).
  { unfold restarted.
    destruct response as [| | | |entries]; simpl; [..|done];
      by apply loadStored_snapshot; auto. }
  rewrite Hload, reread_keys, reread_values. split; [done|].
  apply same_fields_json_values.
Qed.

Lemma restart_restores_registry_witness :
  JsMap.keys
    (users (loadUsers
              (constructor
                 (stored_users (run seeded
                    [ AddUser {[ "username" := VStr "bob" ]} (noon 0%nat);
                      DeactivateUser "bob" (noon 1%nat) ]))
                 None)
              FetchRejected noon))
  = [VStr "admin"; VStr "bob"].
Proof.
  refine (eq_trans (proj1 (restart_restores_registry seeded
            [ AddUser {[ "username" := VStr "bob" ]} (noon 0%nat);
              DeactivateUser "bob" (noon 1%nat) ]
            FetchRejected noon _ _ _ _ _ I)) _).
  - discriminate.
  - vm_compute. repeat constructor; set_solver.
  - vm_compute. repeat constructor.
  - reflexivity.
  - repeat constructor.
  - reflexivity.
Defined.

(** ** The registry: the bootstrap source *)

Lemma bootstrap_keys (clock : nat → string) (entries : list (string * record)) :
  JsMap.keys ((λ e : string * record, (VStr e.1, e.2)) <$>
              imap (λ i e, (e.1, bootstrapUser e.1 e.2 (clock i))) entries)
  = VStr <$> entries.*1.
Proof.
  unfold JsMap.keys. revert clock.
  induction entries as [|[name userData] entries IH]; intros clock; [done|].
  rewrite imap_cons, !fmap_cons. simpl. f_equal. apply (IH (clock ∘ S)).
Qed.

(** X16: when the bootstrap source answers with a users mapping, the
    registry is rebuilt from it alone: whatever the registry and the
    store held before plays no part, the new snapshot is saved, every
    user is active with a permissions value that is never missing, and
    every key is a string.  With usernames that are distinct (as the keys
    of an object are) the registry is the list of the records built from
    the entries, in the order of the mapping. *)
Theorem bootstrap_replaces_registry (st : state)
    (entries : list (string * record)) (clock : nat → string) :
  let st' := loadUsers st (FetchUsers entries) clock in
  (∀ other, same_registry st' (loadUsers other (FetchUsers entries) clock)) ∧
  synced st' ∧
  Forall (λ kr, get "active" kr.2 = VBool true ∧
                truthy (get "permissions" kr.2) = true ∧
                ∃ name, kr.1 = VStr name) (users st') ∧
  (NoDup entries.*1 →
   users st' = imap (λ i e, (VStr e.1, bootstrapUser e.1 e.2 (clock i)))
                    entries).
Proof.
  intros st'. split_and!.
  - done.
  - done.
  - unfold st'. simpl.
    generalize (@nil (value * record)) (Forall_nil_2
      (λ kr : value * record,
         get "active" kr.2 = VBool true ∧
         truthy (get "permissions" kr.2) = true ∧
         ∃ name, kr.1 = VStr name)).
    generalize clock. clear.
    induction entries as [|[name userData] entries IH]; intros clock m Hm.
    + done.
    + rewrite imap_cons. simpl. apply (IH (clock ∘ S)).
      apply set_Forall; [done|]. simpl. split_and!.
      * reflexivity.
      * change (truthy (js_or (get "permissions" userData) (VList [])) = true).
        unfold js_or. by destruct (truthy (get "permissions" userData)) eqn:Hp.
      * by exists name.
  - intros Hnd. unfold st'. simpl.
    etrans; [apply (foldl_set_fresh (λ e : string * record, (VStr e.1, e.2)))|].
    + simpl. rewrite bootstrap_keys. apply NoDup_fmap_2; [|done].
      by intros a b [= ->].
    + simpl. rewrite fmap_imap. by apply imap_ext.
Qed.

Lemma bootstrap_replaces_registry_witness :
  JsMap.keys (users bootstrapped) = [VStr "root"].
Proof.
  destruct (bootstrap_replaces_registry (constructor None None)
    [ ("root", {[ "password" := VStr "pw";
                  "displayName" := VStr "Root";
                  "role" := VStr "admin";
                  "permissions" := VList ["manage"] ]}) ] noon)
    as (_ & _ & _ & Hlist).
  unfold bootstrapped. rewrite Hlist; [reflexivity|].
  repeat constructor. set_solver.
Defined.

(** ** Utilities: MUD codes and intervention types *)

Lemma isWhiteSpace_true c :
  isWhiteSpace c = true ↔
  c ∈ [9; 10; 11; 12; 13; 32; 160; 5760; 8232; 8233; 8239; 8287; 12288;
       65279] ∨ 8192 ≤ c ≤ 8202.
Proof.
  unfold isWhiteSpace. rewrite orb_true_iff, andb_true_iff.
  rewrite bool_decide_eq_true, !Z.leb_le. tauto.
Qed.

Lemma digit_not_space c : isDigit c = true → isWhiteSpace c = false.
Proof.
  unfold isDigit. rewrite andb_true_iff, !Z.leb_le. intros [Hlo Hhi].
  apply not_true_is_false. rewrite isWhiteSpace_true.
  rewrite !elem_of_cons, elem_of_nil. lia.
Qed.

Lemma startsWith_prefix s p :
  startsWith s p = true ↔ ∃ rest, s = p ++ rest.
Proof.
  revert s. induction p as [|a p IH]; intros s; simpl.
  - split; [|done]. intros _. by exists s.
  - destruct s as [|b s].
    + split; [done | by intros [rest ?]].
    + rewrite andb_true_iff, Z.eqb_eq, IH. split.
      * intros [-> [rest ->]]. by exists rest.
      * intros [rest [= -> ->]]. split; [done | by exists rest].
Qed.

Lemma trimStart_spaces ws s :
  Forall (λ c, isWhiteSpace c = true) ws → trimStart (ws ++ s) = trimStart s.
Proof. induction 1 as [|c ws Hc _ IH]; simpl; [done | by rewrite Hc]. Qed.

Lemma trimStart_app a b :
  trimStart (a ++ b)
  = match trimStart a with [] => trimStart b | x => x ++ b end.
Proof.
  induction a as [|c a IH]; simpl; [done|].
  by destruct (isWhiteSpace c).
Qed.

Lemma trimEnd_spaces s ws :
  Forall (λ c, isWhiteSpace c = true) ws → trimEnd (s ++ ws) = trimEnd s.
Proof.
  intros Hws. unfold trimEnd. rewrite reverse_app.
  rewrite trimStart_spaces; [done|]. by apply Forall_reverse.
Qed.

(** White space around a text does not survive [trim]. *)
Lemma trim_spaces ws1 s ws2 :
  Forall (λ c, isWhiteSpace c = true) ws1 →
  Forall (λ c, isWhiteSpace c = true) ws2 →
  trim (ws1 ++ s ++ ws2) = trim s.
Proof.
  intros H1 H2. unfold trim. rewrite (trimStart_spaces ws1) by done.
  rewrite trimStart_app. destruct (trimStart s) as [|c x] eqn:Hs.
  - rewrite <- (app_nil_r ws2). by rewrite trimStart_spaces.
  - by rewrite trimEnd_spaces.
Qed.

Lemma trim_nil : trim [] = [].
Proof. reflexivity. Qed.

(** [getInterventoType] looks at its argument through [trim] only. *)
Lemma getInterventoType_trim m :
  getInterventoType (Some m)
  = if isEmpty (trim m) then "ordinario"
    else if startsWith (trim m) (units "ORD-") then "ordinario" else "mud".
Proof.
  unfold getInterventoType. destruct m as [|c m]; [done|]. simpl isEmpty.
  rewrite orb_false_l. destruct (isEmpty (trim (c :: m))); [done|].
  destruct (startsWith (trim (c :: m)) (units "ORD-")); [done|].
  by destruct (_ || _).
Qed.

(** X17: [generateMudFromCode] returns exactly when the code is four
    characters long and each is one of the digits 0 to 9; it then returns
    the code followed by "-01", seven characters in all.  On any other
    text (shorter, longer, with a sign, a space or a letter) it throws. *)
Theorem generateMudFromCode_outcomes (code : list Z) :
  ((∃ m, generateMudFromCode code = Returns m) ↔
   length code = 4%nat ∧ Forall (λ c, 48 ≤ c ≤ 57) code) ∧
  ((∃ message, generateMudFromCode code = Throws message) ↔
   ¬ (length code = 4%nat ∧ Forall (λ c, 48 ≤ c ≤ 57) code)) ∧
  (∀ m, generateMudFromCode code = Returns m →
        m = code ++ [45; 48; 49] ∧ length m = 7%nat).
Proof.
  assert (Hfour : fourDigits code = true ↔
                  length code = 4%nat ∧ Forall (λ c, 48 ≤ c ≤ 57) code).
  { unfold fourDigits. rewrite andb_true_iff, Nat.eqb_eq.
    rewrite forallb_forall, Forall_forall.
    split; intros [Hlen Hall]; (split; [done|]); intros c Hc.
    - apply list_elem_of_In, Hall in Hc. unfold isDigit in Hc.
      rewrite andb_true_iff, !Z.leb_le in Hc. lia.
    - apply list_elem_of_In, Hall in Hc. unfold isDigit.
      rewrite andb_true_iff, !Z.leb_le. lia. }
  unfold generateMudFromCode. destruct (fourDigits code) eqn:Hf; simpl.
  - pose proof (proj1 Hfour eq_refl) as Hok. split_and!.
    + split; [done | by eexists].
    + split; [by intros [? ?] | done].
    + intros m [= <-]. split; [done|].
      rewrite length_app. by rewrite (proj1 Hok).
  - assert (Hn : ¬ (length code = 4%nat ∧ Forall (λ c, 48 ≤ c ≤ 57) code)).
    { intros Hok. by apply Hfour in Hok. }
    split_and!.
    + split; [by intros [? ?] | done].
    + split; [done | by eexists].
    + done.
Qed.

(** X18: [getInterventoType] answers "ordinario" exactly when the value
    is missing, is empty or blank once trimmed, or starts, once trimmed,
    with "ORD-" in capitals; every other value is "mud", whether or not
    the text MUD occurs in it. *)
Theorem getInterventoType_answers (mudValue : option (list Z)) :
  (getInterventoType mudValue = "ordinario" ↔
     mudValue = None ∨
     ∃ m, mudValue = Some m ∧
          (trim m = [] ∨ ∃ rest, trim m = [79; 82; 68; 45] ++ rest)) ∧
  (getInterventoType mudValue ≠ "ordinario" →
     getInterventoType mudValue = "mud").
Proof.
  destruct mudValue as [m|]; [|split; [split; [by left | done] | done]].
  rewrite getInterventoType_trim.
  destruct (trim m) as [|c x] eqn:Ht; simpl isEmpty.
  - split; [|done]. split; [|done]. intros _. right. exists m. by split; [|left].
  - destruct (startsWith (c :: x) (units "ORD-")) eqn:Hs.
    + split; [|done]. split; [|done]. intros _. right. exists m.
      split; [done|]. right. rewrite Ht. by apply startsWith_prefix.
    + split; [|done]. split; [done|].
      intros [?|(m' & [= <-] & [Hnil|Hord])]; [done| |].
      * by rewrite Ht in Hnil.
      * rewrite Ht in Hord. apply startsWith_prefix in Hord.
        change (units "ORD-") with [79; 82; 68; 45] in Hs. congruence.
Qed.

(** X19: white space before or after the value makes no difference to
    [getInterventoType]. *)
Theorem getInterventoType_ignores_spaces (ws1 m ws2 : list Z) :
  Forall (λ c, isWhiteSpace c = true) ws1 →
  Forall (λ c, isWhiteSpace c = true) ws2 →
  getInterventoType (Some (ws1 ++ m ++ ws2)) = getInterventoType (Some m).
Proof.
  intros H1 H2. by rewrite !getInterventoType_trim, trim_spaces.
Qed.

Lemma getInterventoType_ignores_spaces_witness :
  getInterventoType (Some (units "  " ++ units "ORD-7" ++ [10; 160]))
  = "ordinario".
Proof.
  rewrite (getInterventoType_ignores_spaces (units "  ") (units "ORD-7")
             [10; 160]); [reflexivity | |];
    repeat constructor.
Defined.

(** X20: every MUD that [generateMudFromCode] returns is of type "mud"
    for [getInterventoType]. *)
Theorem generated_mud_is_mud (code m : list Z) :
  generateMudFromCode code = Returns m →
  getInterventoType (Some m) = "mud".
Proof.
  unfold generateMudFromCode. destruct (fourDigits code) eqn:Hf; [|done].
  cbn [negb]. intros [= <-]. unfold fourDigits in Hf.
  apply andb_true_iff in Hf as [Hlen Hall]. apply Nat.eqb_eq in Hlen.
  destruct code as [|a [|b [|c [|d [|e code]]]]]; try done.
  simpl in Hall. apply andb_true_iff in Hall as [Ha _].
  pose proof (digit_not_space a Ha) as Hsp.
  assert (Htrim : trim ([a; b; c; d] ++ units "-01")
                  = [a; b; c; d] ++ units "-01").
  { unfold trim. simpl trimStart. rewrite Hsp.
    unfold trimEnd. change (reverse ([a; b; c; d] ++ units "-01"))
      with [49; 48; 45; d; c; b; a]. reflexivity. }
  assert (Hord : startsWith ([a; b; c; d] ++ units "-01") (units "ORD-")
                 = false).
  { apply not_true_is_false. intros [rest Hr]%startsWith_prefix.
    change (units "ORD-") with [79; 82; 68; 45] in Hr. simpl in Hr.
    injection Hr as -> _. discriminate Ha. }
  by rewrite getInterventoType_trim, Htrim, Hord.
Qed.

Lemma generated_mud_is_mud_witness :
  getInterventoType (Some (units "0042-01")) = "mud".
Proof.
  apply (generated_mud_is_mud (units "0042")). reflexivity.
Defined.

(** ** Utilities: the form *)

Lemma blank_false x : blank x = false ↔ ∃ s, x = Some s ∧ trim s ≠ [].
Proof.
  destruct x as [s|]; simpl.
  - rewrite orb_false_iff. split.
    + intros [_ Ht]. exists s. split; [done|]. by destruct (trim s).
    + intros (s' & [= <-] & Ht). split.
      * destruct s; [by rewrite trim_nil in Ht | done].
      * by destruct (trim s).
  - split; [done | by intros (s & ? & _)].
Qed.

Lemma absent_false x : absent x = false ↔ ∃ s, x = Some s ∧ s ≠ [].
Proof.
  destruct x as [s|]; simpl.
  - split.
    + intros Hs. exists s. split; [done|]. by destruct s.
    + intros (s' & [= <-] & Hs). by destruct s.
  - split; [done | by intros (s & ? & _)].
Qed.

Lemma earlier_true parseDate fine inizio :
  earlier parseDate fine inizio = true ↔
  ∃ ti tf, parseDate inizio = Some ti ∧ parseDate fine = Some tf ∧ tf < ti.
Proof.
  unfold earlier.
  destruct (parseDate fine) as [tf|], (parseDate inizio) as [ti|].
  - rewrite Z.ltb_lt. split.
    + intros Hlt. by exists ti, tf.
    + by intros (ti' & tf' & [= <-] & [= <-] & Hlt).
  - split; [done | by intros (ti' & tf' & ? & _)].
  - split; [done | by intros (ti' & tf' & _ & ? & _)].
  - split; [done | by intros (ti' & tf' & ? & _)].
Qed.

Lemma message_if_nil (b : bool) (message : string) :
  (if b then [message] else []) = [] ↔ b = false.
Proof. by destruct b. Qed.

(** X21: [validateFormData] reports no error exactly when MUD, place and
    description are there and not blank, both dates are there and not
    empty, and the end date, whenever both dates parse, is not before the
    start date. *)
Theorem validateFormData_passes (parseDate : list Z → option Z)
    (fd : formData) :
  validateFormData parseDate fd = [] ↔
  (∃ s, mud fd = Some s ∧ trim s ≠ []) ∧
  (∃ s, luogo fd = Some s ∧ trim s ≠ []) ∧
  (∃ s, descrizione fd = Some s ∧ trim s ≠ []) ∧
  ∃ inizio fine,
    dataInizio fd = Some inizio ∧ inizio ≠ [] ∧
    dataFine fd = Some fine ∧ fine ≠ [] ∧
    ∀ ti tf, parseDate inizio = Some ti → parseDate fine = Some tf →
             ti ≤ tf.
Proof.
  unfold validateFormData. rewrite !app_nil, !message_if_nil.
  rewrite !blank_false, !absent_false. split.
  - intros (Hm & Hl & (inizio & Hi & Hine) & (fine & Hf & Hfne) & Hd & Hord).
    split_and!; try done. exists inizio, fine. split_and!; try done.
    intros ti tf Hti Htf. rewrite Hi, Hf in Hord.
    destruct inizio, fine; try done. simpl in Hord.
    destruct (earlier parseDate _ _) eqn:He; [done|].
    apply not_true_iff_false in He. rewrite earlier_true in He.
    apply Z.nlt_ge. intros Hlt. apply He. by exists ti, tf.
  - intros (Hm & Hl & Hd & inizio & fine & Hi & Hine & Hf & Hfne & Hord).
    split_and!; try done; [by exists inizio | by exists fine |].
    rewrite Hi, Hf. destruct inizio, fine; try done. simpl.
    destruct (earlier parseDate _ _) eqn:He; [|done].
    apply earlier_true in He as (ti & tf & Hti & Htf & Hlt).
    specialize (Hord ti tf Hti Htf). lia.
Qed.

Lemma message_if_elem (b : bool) (message other : string) :
  other ≠ message → other ∉ (if b then [message] else []).
Proof.
  intros Hne. destruct b; [|apply not_elem_of_nil].
  by intros ->%list_elem_of_singleton.
Qed.

(** X22: the message about the order of the dates appears exactly when
    both dates are there and not empty, both parse, and the end date is
    strictly before the start date.  Dates that do not parse are never
    reported, and equal dates are accepted. *)
Theorem validateFormData_date_order (parseDate : list Z → option Z)
    (fd : formData) :
  dateOrder ∈ validateFormData parseDate fd ↔
  ∃ inizio fine ti tf,
    dataInizio fd = Some inizio ∧ inizio ≠ [] ∧
    dataFine fd = Some fine ∧ fine ≠ [] ∧
    parseDate inizio = Some ti ∧ parseDate fine = Some tf ∧ tf < ti.
Proof.
  unfold validateFormData. rewrite !elem_of_app.
  pose proof (message_if_elem (blank (mud fd)) mudRequired dateOrder) as H1.
  pose proof (message_if_elem (blank (luogo fd)) luogoRequired dateOrder) as H2.
  pose proof (message_if_elem (absent (dataInizio fd)) dataInizioRequired
                dateOrder) as H3.
  pose proof (message_if_elem (absent (dataFine fd)) dataFineRequired
                dateOrder) as H4.
  pose proof (message_if_elem (blank (descrizione fd)) descrizioneRequired
                dateOrder) as H5.
  split.
  - intros [?|[?|[?|[?|[?|Hin]]]]];
      [by destruct H1 | by destruct H2 | by destruct H3 | by destruct H4
      | by destruct H5 |].
    destruct (dataInizio fd) as [inizio|]; [|by apply elem_of_nil in Hin].
    destruct (dataFine fd) as [fine|]; [|by apply elem_of_nil in Hin].
    destruct inizio as [|c inizio]; [by apply elem_of_nil in Hin|].
    destruct fine as [|c' fine]; [by apply elem_of_nil in Hin|].
    simpl in Hin.
    destruct (earlier parseDate _ _) eqn:He; [|by apply elem_of_nil in Hin].
    apply earlier_true in He as (ti & tf & Hti & Htf & Hlt).
    by exists (c :: inizio), (c' :: fine), ti, tf.
  - intros (inizio & fine & ti & tf & -> & Hine & -> & Hfne & Hti & Htf & Hlt).
    do 5 right.
    assert (He : earlier parseDate fine inizio = true).
    { apply earlier_true. by exists ti, tf. }
    destruct inizio as [|c inizio], fine as [|c' fine]; try done. simpl.
    rewrite He. apply list_elem_of_here.
Qed.

Lemma validateFormData_passes_witness :
  validateFormData parseLength filled = [].
Proof.
  apply validateFormData_passes. split_and!.
  - eexists. split; [reflexivity | discriminate].
  - eexists. split; [reflexivity | discriminate].
  - eexists. split; [reflexivity | discriminate].
  - eexists _, _. split_and!; try reflexivity; try discriminate.
    intros ti tf [= <-] [= <-]. discriminate.
Defined.

(** ** The registry after loading *)

(** X23: [loadUsers] leaves at least one user in the registry whenever
    the bootstrap source does not answer with an empty users mapping:
    when it fails in any way, whatever the store holds (nothing, an empty
    or unparseable entry, an empty array, a snapshot), and when it names
    at least one user. *)
Theorem loadUsers_leaves_a_user (st : state) (response : fetch_outcome)
    (clock : nat → string) :
  response ≠ FetchUsers [] →
  (0 < JsMap.size (users (loadUsers st response clock)))%nat.
Proof.
  intros Hresp. pose proof (loadUsers_nonempty st response clock Hresp) as Hne.
  unfold JsMap.size. destruct (users (loadUsers st response clock)); [done|].
  simpl. lia.
Qed.

Lemma loadUsers_leaves_a_user_witness :
  (0 < JsMap.size
         (users (loadUsers (constructor (Some Corrupt) None) FetchNotOk noon)))%nat.
Proof.
  apply loadUsers_leaves_a_user. discriminate.
Defined.

(** ** The utilities at work *)

Lemma generateMudFromCode_outcomes_witness :
  ∃ m, generateMudFromCode (units "1234") = Returns m.
Proof.
  apply (proj1 (generateMudFromCode_outcomes (units "1234"))).
  split; [reflexivity|]. repeat constructor; discriminate.
Defined.

Lemma getInterventoType_answers_witness :
  getInterventoType (Some (units "intervento 7")) = "mud".
Proof.
  apply (proj2 (getInterventoType_answers (Some (units "intervento 7")))).
  discriminate.
Defined.

Lemma validateFormData_date_order_witness :
  dateOrder ∈ validateFormData parseLength
    (FormData None None (Some (units "2024-01-10")) (Some (units "2024-1-9"))
              None).
Proof.
  apply validateFormData_date_order.
  exists (units "2024-01-10"), (units "2024-1-9"), 10, 8.
  split_and!; try reflexivity; discriminate.
Defined.
